(** * IT onboarding checklist: the storage adapters and the derived views

    A shallow embedding of [src/App.tsx]: the task and employee records, the
    pure helpers ([uid], [cloneTemplate], [calcProgress], [toCSV],
    [matchTaskHelper]), the local-storage adapter, the Firestore adapter, the
    subscription protocol of both, and the webhook fired by the application's
    [updateTask].

    JavaScript numbers are IEEE-754 binary64 values, modelled by the kernel's
    primitive floats.  Strings are Rocq strings.  An optional field
    ([owner?: string]) is an [option]. *)

From Stdlib Require Import ZArith Floats Uint63 DecimalString Ascii.
From stdpp Require Import gmap strings list sorting fin_maps.

Set Default Proof Using "Type".

(* ------------------------------------------------------------------ *)
(** ** Types *)

(** The four members of [STATUSES]. *)
Inductive Status := NotStarted | InProgress | Blocked | Done.

#[global] Instance Status_eq_dec : EqDecision Status.
Proof. solve_decision. Defined.

Definition STATUSES : list Status := [NotStarted; InProgress; Blocked; Done].

(** The string a status is at run time. *)
Definition status_text (s : Status) : string :=
  match s with
  | NotStarted => "Not Started"
  | InProgress => "In Progress"
  | Blocked => "Blocked"
  | Done => "Done"
  end.

Module Task.
Record t := mk {
  id : string;
  category : string;
  title : string;
  status : Status;
  owner : option string;
  dueDate : option string;
  notes : option string
}.
End Task.
Abbreviation Task := Task.t.

#[global] Instance Task_eq_dec : EqDecision Task.
Proof. solve_decision. Defined.

Module Employee.
Record t := mk {
  id : string;
  name : string;
  startDate : option string;
  role : option string;
  manager : option string;
  email : option string;
  tasks : list Task
}.
End Employee.
Abbreviation Employee := Employee.t.

#[global] Instance Employee_eq_dec : EqDecision Employee.
Proof. solve_decision. Defined.

(** [Partial<Task>]: [None] is a key the patch does not have.  For the three
    optional fields the key can be there and hold [undefined]
    ([Some None]), which the spread copies like any other value. *)
Module Patch.
Record t := mk {
  id : option string;
  category : option string;
  title : option string;
  status : option Status;
  owner : option (option string);
  dueDate : option (option string);
  notes : option (option string)
}.
Definition empty : t := mk None None None None None None None.
End Patch.
Abbreviation Patch := Patch.t.

(* ------------------------------------------------------------------ *)
(** ** Defaults *)

Definition DEFAULT_CATEGORIES : list (string * list string) :=
  [ ("Accounts", ["Create email"; "Add to domain"; "Set up MFA"]);
    ("Hardware", ["Assign laptop"; "Issue monitor"; "Peripherals (kb/mouse)"]);
    ("Software", ["Install Office/365"; "Install Zoom"; "Install Endpoint Protection"]);
    ("Access", ["VPN access"; "Add to network shares"; "Add to Jira/Confluence"]);
    ("Orientation", ["Add to internal wiki"; "Welcome email"; "First-day checklist walk-through"]);
    ("Compliance & Security",
      [ "Clearance status check";
        "Security+ certification (Have / Not / In progress)";
        "Apply for corporate card";
        "Set up Concur";
        "Complete all CBT trainings" ]) ].

(* ------------------------------------------------------------------ *)
(** ** JavaScript truthiness of an optional string *)

(** [undefined] and the empty string are falsy, every other string truthy. *)
Definition truthy (s : option string) : bool :=
  match s with
  | None => false
  | Some s => negb (String.eqb s EmptyString)
  end.

(** [x ?? d] on an optional string. *)
Definition nullish (s : option string) (d : string) : string :=
  match s with Some s => s | None => d end.

(* ------------------------------------------------------------------ *)
(** ** [matchTaskHelper] *)

Record TaskFilter := { f_status : option string; f_owner : option string }.

Definition matchTaskHelper (t : Task) (f : TaskFilter) : bool :=
  if truthy (f_status f)
     && negb (String.eqb (status_text (Task.status t)) (nullish (f_status f) EmptyString))
  then false
  else if truthy (f_owner f)
          && negb (String.eqb (nullish (Task.owner t) EmptyString)
                              (nullish (f_owner f) EmptyString))
  then false
  else true.

(* ------------------------------------------------------------------ *)
(** ** [calcProgress] *)

(** A length or a count as a JavaScript number (exact below 2^53). *)
Definition number_of_nat (n : nat) : float :=
  PrimFloat.of_uint63 (Uint63.of_Z (Z.of_nat n)).

Definition number_of_Z (z : Z) : float :=
  if (z <? 0)%Z then PrimFloat.opp (PrimFloat.of_uint63 (Uint63.of_Z (- z)))
  else PrimFloat.of_uint63 (Uint63.of_Z z).

(** [Math.round]: the nearest integer, a tie going up.  A finite binary64
    value is [m * 2^e]; for [e < 0] the integer [floor (x + 1/2)] is computed
    exactly in [Z]; for [e >= 0] the value is already an integer.  A result
    of zero keeps the sign of the argument. *)
Definition Math_round (x : float) : float :=
  match Prim2SF x with
  | S754_finite s m e =>
      if (0 <=? e)%Z then x
      else
        let num := if s then Z.neg m else Z.pos m in
        let r := ((2 * num + 2 ^ (- e)) / 2 ^ (1 - e))%Z in
        if (r =? 0)%Z then (if s then (-0)%float else 0%float)
        else number_of_Z r
  | _ => x
  end.

Definition calcProgress (tasks : list Task) : float :=
  let total := if (length tasks =? 0)%nat then 1%nat else length tasks in
  let done :=
    length (filter (fun t => Task.status t = Done) tasks) in
  Math_round (PrimFloat.mul (PrimFloat.div (number_of_nat done) (number_of_nat total)) 100%float).

(** The value the formula [round (100 * done / total)] has in exact
    arithmetic, a tie going up: [floor ((200 * done + total) / (2 * total))]. *)
Definition exact_progress (tasks : list Task) : Z :=
  let total := Z.max 1 (Z.of_nat (length tasks)) in
  let done := Z.of_nat (length (filter (fun t => Task.status t = Done) tasks)) in
  ((200 * done + total) / (2 * total))%Z.

(* ------------------------------------------------------------------ *)
(** ** [toCSV] *)

(** The values a row of [toCSV] holds ([rows: any[]]): [undefined], [null],
    strings and integral numbers.  [exportCSV] passes strings and
    [undefined]; the development tests pass small integers.  (Numbers are
    taken below 10^21 in absolute value, where [String] writes them in
    plain decimal digits.) *)
Inductive JsValue :=
  | JsUndefined
  | JsNull
  | JsString (s : string)
  | JsNumber (z : Z).

(** A plain object as the list of its own properties, in the order
    [Object.keys] enumerates them.  The first binding of a key is the
    property.  (Keys are taken not to name a member of [Object.prototype].) *)
Definition Row := list (string * JsValue).

Definition Object_keys (r : Row) : list string := r.*1.

(** [r[h]] *)
Fixpoint get_prop (r : Row) (h : string) : JsValue :=
  match r with
  | [] => JsUndefined
  | (k, v) :: r' => if String.eqb k h then v else get_prop r' h
  end.

(** [String(v ?? empty)]: [undefined] and [null] give the empty string. *)
Definition cell_text (v : JsValue) : string :=
  match v with
  | JsUndefined | JsNull => EmptyString
  | JsString s => s
  | JsNumber z => NilZero.string_of_int (Z.to_int z)
  end.

Definition DQUOTE : ascii := "034"%char.
Definition COMMA : ascii := ","%char.
Definition LF : ascii := "010"%char.

(** The global replace of [esc]: every double quote becomes two. *)
Fixpoint double_quotes (s : string) : string :=
  match s with
  | EmptyString => EmptyString
  | String c s' =>
      if Ascii.eqb c DQUOTE then String DQUOTE (String DQUOTE (double_quotes s'))
      else String c (double_quotes s')
  end.

Definition esc (v : JsValue) : string :=
  String DQUOTE (double_quotes (cell_text v) +:+ String DQUOTE EmptyString).

(** [Array.from(new Set(xs))]: the elements in the order of their first
    occurrence.  [seen] is what the set holds so far. *)
Fixpoint set_order (seen : list string) (xs : list string) : list string :=
  match xs with
  | [] => []
  | x :: xs' =>
      if bool_decide (x ∈ seen) then set_order seen xs'
      else x :: set_order (x :: seen) xs'
  end.

(** [xs.join(sep)] *)
Definition join (sep : string) (xs : list string) : string := String.concat sep xs.

Definition csv_headers (rows : list Row) : list string :=
  set_order [] (flat_map Object_keys rows).

Definition csv_row (headers : list string) (r : Row) : string :=
  join (String COMMA EmptyString) (map (fun h => esc (get_prop r h)) headers).

Definition toCSV (rows : list Row) : string :=
  let headers := csv_headers rows in
  join (String LF EmptyString)
       (join (String COMMA EmptyString) headers :: map (csv_row headers) rows).

(** [s.split(LF)], the lines of a text. *)
Fixpoint split_lines (s : string) : list string :=
  match s with
  | EmptyString => [EmptyString]
  | String c s' =>
      if Ascii.eqb c LF then EmptyString :: split_lines s'
      else match split_lines s' with
           | l :: ls => String c l :: ls
           | [] => [String c EmptyString]
           end
  end.


(* ------------------------------------------------------------------ *)
(** ** [uid] and [cloneTemplate] *)

(** The two helpers read the clock and [Math.random].  The random source is
    a stream: [random36 n] is the text [Math.random().toString(36)] of the
    [n]-th draw, and a computation threads the number of draws made so far.
    [toISODate ms] is [new Date(ms).toISOString().slice(0, 10)]. *)
Section Helpers.
Variable random36 : nat -> string.
Variable toISODate : Z -> string.

(** A computation that draws random numbers. *)
Definition Rand (A : Type) : Type := nat -> A * nat.

Definition rand_ret {A} (a : A) : Rand A := fun n => (a, n).
Definition rand_bind {A B} (m : Rand A) (k : A -> Rand B) : Rand B :=
  fun n => let '(a, n') := m n in k a n'.

(** [xs.map((x, j) => f(x, j))] for an effectful [f]: left to right, [j]
    counting from [j0]. *)
Fixpoint rand_mapi {A B} (f : A -> nat -> Rand B) (j0 : nat) (xs : list A) : Rand (list B) :=
  match xs with
  | [] => rand_ret []
  | x :: xs' =>
      rand_bind (f x j0) (fun b =>
      rand_bind (rand_mapi f (S j0) xs') (fun bs =>
      rand_ret (b :: bs)))
  end.

(** The prefix, an underscore, and [Math.random().toString(36).slice(2, 9)]. *)
Definition uid (prefix : string) : Rand string :=
  fun n => (prefix +:+ "_" +:+ String.substring 2 7 (random36 n), S n).

Definition DAY_MS : Z := 24 * 60 * 60 * 1000.

(** [today] is [new Date().getTime()]. *)
Definition cloneTemplate (today : Z) : Rand (list Task) :=
  rand_bind
    (rand_mapi (fun (cat : string * list string) i =>
       rand_mapi (fun (t : string) j =>
         rand_bind (uid "task") (fun id =>
         rand_ret (Task.mk id (fst cat) t NotStarted None
                     (Some (toISODate (today + Z.of_nat (i + j) * DAY_MS)%Z))
                     None)))
         0 (snd cat))
       0 DEFAULT_CATEGORIES)
    (fun tss => rand_ret (concat tss)).
End Helpers.

(* ------------------------------------------------------------------ *)
(** ** Storage adapters *)

(** How a promise settles. *)
Inductive Promise (A : Type) :=
  | Fulfilled (a : A)
  | Rejected (reason : string).
Arguments Fulfilled {A} a.
Arguments Rejected {A} reason.

(** The spread of a patch over a task: a key of the patch wins, a key the
    patch does not have keeps the value of the task. *)
Definition merge_patch (t : Task) (p : Patch) : Task :=
  Task.mk
    (default (Task.id t) (Patch.id p))
    (default (Task.category t) (Patch.category p))
    (default (Task.title t) (Patch.title p))
    (default (Task.status t) (Patch.status p))
    (default (Task.owner t) (Patch.owner p))
    (default (Task.dueDate t) (Patch.dueDate p))
    (default (Task.notes t) (Patch.notes p)).

(** The interface [StorageAdapter] without [subscribe], over the state [S] of
    the backing store.  A call is taken alone: its promise settles before the
    next call starts. *)
Class StorageAdapter (S : Type) := {
  load : S -> Promise (list Employee) * S;
  addEmployee : Employee -> S -> Promise unit * S;
  updateTask : string -> string -> Patch -> S -> Promise unit * S;
  removeEmployee : string -> S -> Promise unit * S
}.

(** *** Local adapter *)

Definition STORAGE_KEY : string := "it-onboarding-v1".
Definition SETTINGS_KEY : string := "it-onboarding-settings".

(** The text of a local-storage item, seen through [JSON.parse]: the
    serialisation of a list of employees ([JSON.parse (JSON.stringify d)]
    gives [d] back), the empty text, or a text [JSON.parse] throws on. *)
Inductive ItemText :=
  | Json (data : list Employee)
  | Blank
  | Unparsable.

(** The item under [STORAGE_KEY]; [None] is [getItem] returning [null]. *)
Definition LocalStorage := option ItemText.

Module Local.
Definition load (s : LocalStorage) : list Employee :=
  match s with
  | Some (Json data) => data
  | Some Blank | None => []
  | Some Unparsable => []
  end.

Definition addEmployee (e : Employee) (s : LocalStorage) : LocalStorage :=
  let data := load s in
  Some (Json (e :: data)).

Definition updateTask (empId taskId : string) (patch : Patch) (s : LocalStorage) : LocalStorage :=
  let data := load s in
  let next :=
    map (fun e =>
           if bool_decide (Employee.id e ≠ empId) then e
           else Employee.mk (Employee.id e) (Employee.name e) (Employee.startDate e)
                  (Employee.role e) (Employee.manager e) (Employee.email e)
                  (map (fun t => if bool_decide (Task.id t = taskId)
                                 then merge_patch t patch else t)
                       (Employee.tasks e)))
        data in
  Some (Json next).

Definition removeEmployee (empId : string) (s : LocalStorage) : LocalStorage :=
  let data := load s in
  let next := filter (fun e => Employee.id e ≠ empId) data in
  Some (Json next).
End Local.

#[global] Instance localAdapter : StorageAdapter LocalStorage := {|
  load s := (Fulfilled (Local.load s), s);
  addEmployee e s := (Fulfilled tt, Local.addEmployee e s);
  updateTask empId taskId patch s := (Fulfilled tt, Local.updateTask empId taskId patch s);
  removeEmployee empId s := (Fulfilled tt, Local.removeEmployee empId s)
|}.

(** *** Firestore adapter *)

(** The fields of an employee document.  [addEmployee] writes all five; a
    document another writer made may lack the last four. *)
Record EmpDoc := {
  d_name : string;
  d_email : option string;
  d_role : option string;
  d_manager : option string;
  d_startDate : option string
}.

#[global] Instance EmpDoc_eq_dec : EqDecision EmpDoc.
Proof. solve_decision. Defined.

(** The database: the collection [employees], and under every employee id
    the sub-collection [tasks].  A sub-collection lives on when its parent
    document is deleted, and can be there without one. *)
Record Firestore := {
  employees : gmap string EmpDoc;
  tasks : gmap string (gmap string Task)
}.

(** What [createFirestoreAdapter(config)] returns: the variable [imported]
    of its closure, and the database its [db] stands for. *)
Record FirestoreAdapter := {
  imported : bool;
  database : Firestore
}.

(** The adapter as [createFirestoreAdapter] returns it. *)
Definition createFirestoreAdapter (db : Firestore) : FirestoreAdapter :=
  {| imported := false; database := db |}.

Module Remote.
Definition COL : string := "employees".

(** [ensure()]: the first call imports the library, initialises [db], sets
    [imported] and returns the object holding [firestore]; once [imported]
    is set a call returns the empty object, whose [firestore] is
    [undefined].  The result is [true] when [firestore] is there. *)
Definition ensure (a : FirestoreAdapter) : bool * FirestoreAdapter :=
  if imported a then (false, a)
  else (true, {| imported := true; database := database a |}).

(** Taking [collection], [doc], ... out of [undefined] throws. *)
Definition TYPE_ERROR : string :=
  "TypeError: Cannot destructure property of undefined".

(** A method of the adapter: [ensure()], the destructuring of [firestore],
    then the body on the database. *)
Definition method {A} (body : Firestore -> Promise A * Firestore) (a : FirestoreAdapter)
  : Promise A * FirestoreAdapter :=
  let '(found, a') := ensure a in
  if found then
    let '(r, db') := body (database a') in
    (r, {| imported := imported a'; database := db' |})
  else (Rejected TYPE_ERROR, a').

(** [orderBy(name)]: by name, documents of one name by document id. *)
Definition doc_le (x y : string * EmpDoc) : Prop :=
  String.le (d_name x.2) (d_name y.2)
  ∧ (String.le (d_name y.2) (d_name x.2) → String.le x.1 y.1).

(** A collection read without [orderBy] comes ordered by document id. *)
Definition key_le {A} (x y : string * A) : Prop := String.le x.1 y.1.

#[global] Instance doc_le_dec : RelDecision doc_le.
Proof. intros x y. unfold doc_le. apply _. Defined.

#[global] Instance key_le_dec {A} : RelDecision (@key_le A).
Proof. intros x y. unfold key_le. apply _. Defined.

(** [getDocs(collection(empRef, tasks)).docs.map(d => d.data())] *)
Definition task_docs (db : Firestore) (empId : string) : list Task :=
  (merge_sort key_le (map_to_list (default ∅ (tasks db !! empId)))).*2.

(** [getDocs(query(collection(db, COL), orderBy(name))).docs] *)
Definition employee_docs (db : Firestore) : list (string * EmpDoc) :=
  merge_sort doc_le (map_to_list (employees db)).

Definition employee_of_doc (id : string) (d : EmpDoc) (ts : list Task) : Employee :=
  Employee.mk id (d_name d)
    (Some (nullish (d_startDate d) EmptyString))
    (Some (nullish (d_role d) EmptyString))
    (Some (nullish (d_manager d) EmptyString))
    (Some (nullish (d_email d) EmptyString))
    ts.

(** The body of [load]. *)
Definition load_docs (db : Firestore) : list Employee :=
  map (fun doc => employee_of_doc doc.1 doc.2 (task_docs db doc.1)) (employee_docs db).

(** [setDoc(tRef, t)] for every task of the list, in order. *)
Definition set_task_docs (ts : list Task) (col : gmap string Task) : gmap string Task :=
  foldl (fun c t => <[Task.id t := t]> c) col ts.

(** The body of [addEmployee]. *)
Definition set_employee (e : Employee) (db : Firestore) : Firestore :=
  let doc := {| d_name := Employee.name e;
                d_email := Some (nullish (Employee.email e) EmptyString);
                d_role := Some (nullish (Employee.role e) EmptyString);
                d_manager := Some (nullish (Employee.manager e) EmptyString);
                d_startDate := Some (nullish (Employee.startDate e) EmptyString) |} in
  {| employees := <[Employee.id e := doc]> (employees db);
     tasks := <[Employee.id e :=
                  set_task_docs (Employee.tasks e) (default ∅ (tasks db !! Employee.id e))]>
                (tasks db) |}.

(** A key of the patch that holds [undefined]. *)
Definition holds_undefined (p : Patch) : bool :=
  bool_decide (Patch.owner p = Some None)
  || bool_decide (Patch.dueDate p = Some None)
  || bool_decide (Patch.notes p = Some None).

(** The body of [updateTask]: [updateDoc] refuses a field that holds
    [undefined], and fails when the document is not there. *)
Definition update_task_doc (empId taskId : string) (patch : Patch) (db : Firestore)
  : Promise unit * Firestore :=
  if holds_undefined patch then (Rejected "invalid-argument", db)
  else
    match default ∅ (tasks db !! empId) !! taskId with
    | None => (Rejected "not-found", db)
    | Some t =>
        (Fulfilled tt,
         {| employees := employees db;
            tasks := <[empId := <[taskId := merge_patch t patch]>
                                  (default ∅ (tasks db !! empId))]> (tasks db) |})
    end.

(** The body of [removeEmployee]: every task document the sub-collection
    holds is deleted, then the employee document. *)
Definition delete_employee (empId : string) (db : Firestore) : Firestore :=
  let tSnap := map_to_list (default ∅ (tasks db !! empId)) in
  let col := foldl (fun c d => delete d.1 c) (default ∅ (tasks db !! empId)) tSnap in
  {| employees := delete empId (employees db);
     tasks := <[empId := col]> (tasks db) |}.

Definition load : FirestoreAdapter -> Promise (list Employee) * FirestoreAdapter :=
  method (fun db => (Fulfilled (load_docs db), db)).

Definition addEmployee (e : Employee)
  : FirestoreAdapter -> Promise unit * FirestoreAdapter :=
  method (fun db => (Fulfilled tt, set_employee e db)).

Definition updateTask (empId taskId : string) (patch : Patch)
  : FirestoreAdapter -> Promise unit * FirestoreAdapter :=
  method (update_task_doc empId taskId patch).

Definition removeEmployee (empId : string)
  : FirestoreAdapter -> Promise unit * FirestoreAdapter :=
  method (fun db => (Fulfilled tt, delete_employee empId db)).
End Remote.

#[global] Instance firestoreAdapter : StorageAdapter FirestoreAdapter := {|
  load := Remote.load;
  addEmployee := Remote.addEmployee;
  updateTask := Remote.updateTask;
  removeEmployee := Remote.removeEmployee
|}.

(* ------------------------------------------------------------------ *)
(** ** The application's [updateTask] and its webhook *)

Record SharedSettings := {
  enabled : bool;
  provider : string;
  firebaseConfigText : string
}.

Record Settings := {
  webhookEnabled : bool;
  webhookUrl : string;
  reminderDays : Z;
  owners : list string;
  shared : SharedSettings
}.

(** The object [JSON.stringify] turns into the body of the request. *)
Record WebhookPayload := {
  p_empId : string;
  p_taskId : string;
  p_patch : Patch;
  p_event : string;
  p_timestamp : string
}.

(** A call of [fetch]. *)
Record FetchCall := {
  fetch_url : string;
  fetch_method : string;
  fetch_headers : list (string * string);
  fetch_body : WebhookPayload
}.

(** What the call of [fetch] does: it throws, or it returns a promise, which
    the application drops and which settles later either way. *)
Inductive FetchBehaviour :=
  | FetchThrows
  | FetchReturns (settles : Promise unit).

(** What a run of the application's [updateTask] leaves behind: how its
    promise settles, the store, the calls of [fetch] and the lines of
    [console.warn]. *)
Record AppRun (S : Type) := {
  settled : Promise unit;
  store : S;
  fetched : list FetchCall;
  warned : list string
}.
Arguments settled {S} _.
Arguments store {S} _.
Arguments fetched {S} _.
Arguments warned {S} _.

Module App.
(** [now] is [new Date().toISOString()] at the time of the call. *)
Definition updateTask {S} `{StorageAdapter S} (settings : Settings) (now : string)
    (net : FetchBehaviour) (empId taskId : string) (patch : Patch) (st : S) : AppRun S :=
  let '(r, st') := updateTask empId taskId patch st in
  match r with
  | Rejected reason => {| settled := Rejected reason; store := st'; fetched := []; warned := [] |}
  | Fulfilled _ =>
      if webhookEnabled settings
         && truthy (Some (webhookUrl settings))
         && (truthy (status_text <$> Patch.status patch)
             || truthy (mjoin (Patch.owner patch)))
      then
        let payload := {| p_empId := empId; p_taskId := taskId; p_patch := patch;
                          p_event := "task.updated"; p_timestamp := now |} in
        let call := {| fetch_url := webhookUrl settings;
                       fetch_method := "POST";
                       fetch_headers := [("Content-Type", "application/json")];
                       fetch_body := payload |} in
        {| settled := Fulfilled tt; store := st'; fetched := [call];
           warned := match net with FetchThrows => ["Webhook failed"] | FetchReturns _ => [] end |}
      else {| settled := Fulfilled tt; store := st'; fetched := []; warned := [] |}
  end.
End App.

(* ------------------------------------------------------------------ *)
(** ** Subscriptions *)

(** *** The local adapter in a window *)

(** A callback is known by a number; calling it is recorded in [calls]. *)
Module LocalSubscribe.
Record World := {
  storage : LocalStorage;
  (** the listeners of the window's [storage] event: handler, callback *)
  handlers : list (nat * nat);
  next_handler : nat;
  (** promise reactions waiting to run: callback, value *)
  microtasks : list (nat * list Employee);
  (** the calls made so far, oldest first *)
  calls : list (nat * list Employee)
}.

(** [subscribe(cb)]: [load()] reads the store now, its [then] queues the
    call of [cb]; the handler is added; the disposer returned removes that
    handler, and is known by the handler's number. *)
Definition subscribe (cb : nat) (w : World) : nat * World :=
  let h := next_handler w in
  (h, {| storage := storage w;
         handlers := handlers w ++ [(h, cb)];
         next_handler := S h;
         microtasks := microtasks w ++ [(cb, Local.load (storage w))];
         calls := calls w |}).

(** The disposer: [removeEventListener]. *)
Definition dispose (h : nat) (w : World) : World :=
  {| storage := storage w;
     handlers := filter (fun hc => hc.1 ≠ h) (handlers w);
     next_handler := next_handler w;
     microtasks := microtasks w;
     calls := calls w |}.

(** The oldest waiting reaction runs. *)
Definition run_microtask (w : World) : World :=
  match microtasks w with
  | [] => w
  | job :: rest =>
      {| storage := storage w; handlers := handlers w; next_handler := next_handler w;
         microtasks := rest; calls := calls w ++ [job] |}
  end.

(** What one handler does with a storage event. *)
Definition handler_calls (key : option string) (newValue : option ItemText) (cb : nat)
  : list (nat * list Employee) :=
  if bool_decide (key = Some STORAGE_KEY) then
    match newValue with
    | Some (Json data) => [(cb, data)]
    | Some Blank | None => [(cb, [])]
    | Some Unparsable => []
    end
  else [].

(** Another window wrote the store: the item changes and every handler of
    this window runs. *)
Definition storage_event (key : option string) (newValue : option ItemText) (w : World) : World :=
  {| storage := match key with
                | None => None
                | Some k => if bool_decide (k = STORAGE_KEY) then newValue else storage w
                end;
     handlers := handlers w;
     next_handler := next_handler w;
     microtasks := microtasks w;
     calls := calls w ++ flat_map (fun hc => handler_calls key newValue hc.2) (handlers w) |}.

Inductive Event :=
  | Subscribe (cb : nat)
  | Dispose (h : nat)
  | Microtask
  | StorageEvent (key : option string) (newValue : option ItemText).

Definition step (w : World) (ev : Event) : World :=
  match ev with
  | Subscribe cb => (subscribe cb w).2
  | Dispose h => dispose h w
  | Microtask => run_microtask w
  | StorageEvent key newValue => storage_event key newValue w
  end.

Definition run (w : World) (evs : list Event) : World := foldl step w evs.

(** The calls of one callback. *)
Definition calls_of (cb : nat) (w : World) : list (list Employee) :=
  (filter (fun c => c.1 = cb) (calls w)).*2.

Definition initial (s : LocalStorage) : World :=
  {| storage := s; handlers := []; next_handler := 0; microtasks := []; calls := [] |}.
End LocalSubscribe.

(** *** The Firestore adapter and one subscription *)

Module RemoteSubscribe.
Inductive Listener :=
  | ParentListener
  | TaskListener (empId : string).

#[global] Instance Listener_eq_dec : EqDecision Listener.
Proof. solve_decision. Defined.

(** The adapter, the live [onSnapshot] listeners of its database, and the
    variables of one call of [subscribe]: [unsubEmp], [taskUnsubs], and the
    [base] the task listeners of the last parent snapshot share.
    [ensure_pending] is the promise of [ensure()] whose reaction has not run
    yet, with what it will hand over: [true] when [firestore] is there. *)
Record World := {
  adapter : FirestoreAdapter;
  attached : list (nat * Listener);
  next_listener : nat;
  ensure_pending : option bool;
  unsubEmp : option nat;
  taskUnsubs : list (string * nat);
  base : list Employee;
  calls : list (list Employee)
}.

Definition db (w : World) : Firestore := database (adapter w).

Definition detach (ls : list nat) (a : list (nat * Listener)) : list (nat * Listener) :=
  filter (fun l => l.1 ∉ ls) a.

(** [subscribe(cb)]: the two variables are initialised and [ensure()] is
    called, which reads [imported] now; its reaction runs later. *)
Definition subscribe (w : World) : World :=
  {| adapter := adapter w; attached := attached w; next_listener := next_listener w;
     ensure_pending := Some (negb (imported (adapter w)));
     unsubEmp := None; taskUnsubs := []; base := [];
     calls := calls w |}.

(** [ensure()] settles and its reaction runs: after the import [imported]
    is set and, [firestore] being there, the parent listener is attached;
    without [firestore] the destructuring throws and nothing is attached. *)
Definition ensure_resolved (w : World) : World :=
  match ensure_pending w with
  | Some true =>
      let l := next_listener w in
      {| adapter := {| imported := true; database := db w |};
         attached := attached w ++ [(l, ParentListener)];
         next_listener := S l; ensure_pending := None;
         unsubEmp := Some l; taskUnsubs := taskUnsubs w; base := base w;
         calls := calls w |}
  | Some false =>
      {| adapter := adapter w; attached := attached w;
         next_listener := next_listener w; ensure_pending := None;
         unsubEmp := unsubEmp w; taskUnsubs := taskUnsubs w; base := base w;
         calls := calls w |}
  | None => w
  end.

(** The listeners [onSnapshot] gives the employees of [base], numbered from [l0]. *)
Fixpoint attach_tasks (l0 : nat) (emps : list Employee) : list (string * nat) :=
  match emps with
  | [] => []
  | e :: emps' => (Employee.id e, l0) :: attach_tasks (S l0) emps'
  end.

(** The parent listener [l] receives the collection: [base] is built anew
    with no tasks, the task listeners are replaced, the callback is called.
    The employees of [base] are kept in the order of the query, which is
    the order of [Object.values(base)] unless a document id is an array
    index: such ids are listed first.  What is proved below of the order of
    the employees handed to the callback assumes there is no such id. *)
Definition parent_snapshot (l : nat) (w : World) : World :=
  if bool_decide ((l, ParentListener) ∈ attached w) then
    let base' := map (fun doc => Remote.employee_of_doc doc.1 doc.2 [])
                     (Remote.employee_docs (db w)) in
    let kept := detach (taskUnsubs w).*2 (attached w) in
    let subs := attach_tasks (next_listener w) base' in
    {| adapter := adapter w;
       attached := kept ++ map (fun s => (s.2, TaskListener s.1)) subs;
       next_listener := next_listener w + length base';
       ensure_pending := ensure_pending w;
       unsubEmp := unsubEmp w;
       taskUnsubs := subs;
       base := base';
       calls := calls w ++ [base'] |}
  else w.

(** The task listener [l] of employee [empId] receives the sub-collection:
    it assigns the tasks of that employee in [base] and calls the callback. *)
Definition task_snapshot (l : nat) (empId : string) (w : World) : World :=
  if bool_decide ((l, TaskListener empId) ∈ attached w) then
    let base' :=
      map (fun e => if bool_decide (Employee.id e = empId)
                    then Employee.mk (Employee.id e) (Employee.name e) (Employee.startDate e)
                           (Employee.role e) (Employee.manager e) (Employee.email e)
                           (Remote.task_docs (db w) empId)
                    else e) (base w) in
    {| adapter := adapter w; attached := attached w; next_listener := next_listener w;
       ensure_pending := ensure_pending w; unsubEmp := unsubEmp w;
       taskUnsubs := taskUnsubs w; base := base'; calls := calls w ++ [base'] |}
  else w.

(** The disposer. *)
Definition dispose (w : World) : World :=
  let a := match unsubEmp w with
           | Some l => detach [l] (attached w)
           | None => attached w
           end in
  {| adapter := adapter w; attached := detach (taskUnsubs w).*2 a;
     next_listener := next_listener w;
     ensure_pending := ensure_pending w; unsubEmp := unsubEmp w;
     taskUnsubs := []; base := base w; calls := calls w |}.

(** Another client writes the database. *)
Definition remote_write (db' : Firestore) (w : World) : World :=
  {| adapter := {| imported := imported (adapter w); database := db' |};
     attached := attached w; next_listener := next_listener w;
     ensure_pending := ensure_pending w; unsubEmp := unsubEmp w;
     taskUnsubs := taskUnsubs w; base := base w; calls := calls w |}.

Inductive Event :=
  | EnsureResolved
  | ParentSnapshot (l : nat)
  | TaskSnapshot (l : nat) (empId : string)
  | Dispose
  | RemoteWrite (db' : Firestore).

Definition step (w : World) (ev : Event) : World :=
  match ev with
  | EnsureResolved => ensure_resolved w
  | ParentSnapshot l => parent_snapshot l w
  | TaskSnapshot l empId => task_snapshot l empId w
  | Dispose => dispose w
  | RemoteWrite db' => remote_write db' w
  end.

Definition run (w : World) (evs : list Event) : World := foldl step w evs.

(** An adapter nobody listens to yet. *)
Definition initial (a : FirestoreAdapter) : World :=
  {| adapter := a; attached := []; next_listener := 0; ensure_pending := None;
     unsubEmp := None; taskUnsubs := []; base := []; calls := [] |}.

(** The adapter right after a call of [subscribe]. *)
Definition subscribed (a : FirestoreAdapter) : World := subscribe (initial a).
End RemoteSubscribe.

(* ------------------------------------------------------------------ *)
(** ** Sample data *)

Definition sample_task (id : string) (s : Status) (o : option string) : Task :=
  Task.mk id "Accounts" "Create email" s o (Some "2025-08-10") None.

(** The task of the development tests. *)
Definition dev_task : Task := sample_task "1" InProgress (Some "Alice").

Definition sample_employee (id name : string) (ts : list Task) : Employee :=
  Employee.mk id name None None None None ts.

(** Forty tasks, twenty-three of them done. *)
Definition forty_tasks : list Task :=
  replicate 23 (sample_task "t" Done None) ++ replicate 17 (sample_task "t" NotStarted None).

(** A random source that repeats itself, and one that does not for the first
    twenty-six draws. *)
Definition stuck_random36 (n : nat) : string := "0.5".
Definition letter_random36 (n : nat) : string :=
  "0." +:+ String (ascii_of_nat (97 + n)) EmptyString.
Definition epoch_date (ms : Z) : string := "1970-01-01".

(* ------------------------------------------------------------------ *)
(** ** Counts behind the progress *)

(** [calcProgress] reads a list through two counts only. *)
Definition progress_of_counts (done total : nat) : float :=
  Math_round (PrimFloat.mul (PrimFloat.div (number_of_nat done) (number_of_nat total)) 100%float).

Definition exact_of_counts (done total : nat) : Z :=
  ((200 * Z.of_nat done + Z.of_nat total) / (2 * Z.of_nat total))%Z.

Definition done_count (tasks : list Task) : nat :=
  length (filter (fun t => Task.status t = Done) tasks).

(* ------------------------------------------------------------------ *)
(** ** Texts without a line feed *)

Fixpoint lf_free (s : string) : bool :=
  match s with
  | EmptyString => true
  | String c s' => negb (Ascii.eqb c LF) && lf_free s'
  end.

(** No key and no cell of the row spans lines. *)
Definition row_lf_free (r : Row) : Prop :=
  ∀ k v, (k, v) ∈ r → lf_free k = true ∧ lf_free (cell_text v) = true.



(* ------------------------------------------------------------------ *)
(** ** What a merge is *)

(** A field after a patch: the value of the patch when the patch has the
    key, the old value when it has not. *)
Definition field_merged {A} (old : A) (patch : option A) (new : A) : Prop :=
  match patch with
  | Some v => new = v
  | None => new = old
  end.

Definition patched (t : Task) (p : Patch) (t' : Task) : Prop :=
  field_merged (Task.id t) (Patch.id p) (Task.id t')
  ∧ field_merged (Task.category t) (Patch.category p) (Task.category t')
  ∧ field_merged (Task.title t) (Patch.title p) (Task.title t')
  ∧ field_merged (Task.status t) (Patch.status p) (Task.status t')
  ∧ field_merged (Task.owner t) (Patch.owner p) (Task.owner t')
  ∧ field_merged (Task.dueDate t) (Patch.dueDate p) (Task.dueDate t')
  ∧ field_merged (Task.notes t) (Patch.notes p) (Task.notes t').

(** The task list [ts'] is [ts] with the patch merged into the tasks named
    [taskId], position by position. *)
Definition tasks_patched (taskId : string) (p : Patch) (ts ts' : list Task) : Prop :=
  length ts' = length ts
  ∧ ∀ j t, ts !! j = Some t →
      ∃ t', ts' !! j = Some t'
            ∧ (Task.id t = taskId → patched t p t')
            ∧ (Task.id t ≠ taskId → t' = t).

(** The employee [e'] is [e] but for its tasks. *)
Definition same_but_tasks (e e' : Employee) : Prop :=
  Employee.id e' = Employee.id e
  ∧ Employee.name e' = Employee.name e
  ∧ Employee.startDate e' = Employee.startDate e
  ∧ Employee.role e' = Employee.role e
  ∧ Employee.manager e' = Employee.manager e
  ∧ Employee.email e' = Employee.email e.

(** The task [taskId] of the employee [empId] is in the collection. *)
Definition has_task (empId taskId : string) (data : list Employee) : Prop :=
  ∃ e t, e ∈ data ∧ Employee.id e = empId ∧ t ∈ Employee.tasks e ∧ Task.id t = taskId.

Definition status_patch (s : Status) : Patch :=
  Patch.mk None None None (Some s) None None None.

Definition one_hire : LocalStorage :=
  Some (Json [sample_employee "emp_1" "Jane" [sample_task "task_1" NotStarted None]]).

(* ------------------------------------------------------------------ *)
(** ** Runs of an adapter *)

(** The mutating calls of the interface. *)
Inductive Op :=
  | OpAdd (e : Employee)
  | OpUpdate (empId taskId : string) (patch : Patch)
  | OpRemove (empId : string).

Definition apply_op {S} `{StorageAdapter S} (s : S) (op : Op) : S :=
  match op with
  | OpAdd e => (addEmployee e s).2
  | OpUpdate empId taskId patch => (updateTask empId taskId patch s).2
  | OpRemove empId => (removeEmployee empId s).2
  end.

Definition ids (data : list Employee) : list string := map Employee.id data.

(** Every [addEmployee] of the run brings an id the local store does not
    hold when it is called. *)
Fixpoint adds_fresh (s : LocalStorage) (ops : list Op) : Prop :=
  match ops with
  | [] => True
  | op :: ops' =>
      match op with
      | OpAdd e => Employee.id e ∉ ids (Local.load s)
      | _ => True
      end
      ∧ adds_fresh (apply_op s op) ops'
  end.

Definition jane : Employee :=
  sample_employee "emp_1" "Jane" [sample_task "task_1" NotStarted None].
Definition omar : Employee :=
  sample_employee "emp_2" "Omar" [sample_task "task_1" NotStarted None].

(** Settings with the webhook off and on. *)
Definition default_settings : Settings :=
  {| webhookEnabled := false; webhookUrl := EmptyString; reminderDays := 2;
     owners := ["IT Queue"; "Alice"; "Bob"; "Charlie"];
     shared := {| enabled := false; provider := "local"; firebaseConfigText := EmptyString |} |}.

Definition webhook_settings : Settings :=
  {| webhookEnabled := true; webhookUrl := "https://example.org/hook"; reminderDays := 2;
     owners := ["IT Queue"; "Alice"; "Bob"; "Charlie"];
     shared := {| enabled := false; provider := "local"; firebaseConfigText := EmptyString |} |}.

(** The patch has a status, or an owner that is a non-empty string. *)
Definition touches_status_or_owner (p : Patch) : Prop :=
  is_Some (Patch.status p) ∨ ∃ o, Patch.owner p = Some (Some o) ∧ o ≠ EmptyString.

(** The webhook is switched on and has a target. *)
Definition webhook_on (settings : Settings) : Prop :=
  webhookEnabled settings = true ∧ webhookUrl settings ≠ EmptyString.

(* ------------------------------------------------------------------ *)
(** ** Events that leave a callback alone *)

(** The event is not a new subscription of the callback [cb]. *)
Definition not_subscribe (cb : nat) (ev : LocalSubscribe.Event) : Prop :=
  match ev with
  | LocalSubscribe.Subscribe cb' => cb' ≠ cb
  | _ => True
  end.

(** Nothing in the window will call [cb]: no handler and no waiting reaction
    is bound to it. *)
Definition quiet (cb : nat) (w : LocalSubscribe.World) : Prop :=
  (∀ hc, hc ∈ LocalSubscribe.handlers w → hc.2 ≠ cb)
  ∧ (∀ job, job ∈ LocalSubscribe.microtasks w → job.1 ≠ cb).

(** A database with one employee document. *)
Definition one_doc_db : Firestore :=
  {| employees := {[ "emp_1" := {| d_name := "Jane"; d_email := None; d_role := None;
                                   d_manager := None; d_startDate := None |} ]};
     tasks := ∅ |}.

(** The listeners the subscription can still detach. *)
Definition owned (w : RemoteSubscribe.World) : Prop :=
  RemoteSubscribe.ensure_pending w = None
  ∧ ∀ l, l ∈ RemoteSubscribe.attached w →
         RemoteSubscribe.unsubEmp w = Some l.1
         ∨ l.1 ∈ (RemoteSubscribe.taskUnsubs w).*2.

(* ------------------------------------------------------------------ *)
(** ** The page: views, commands, export and import *)

(** The state [filters] of the page: the two keys [matchTaskHelper] reads,
    and [search]. *)
Record ViewFilters := {
  task_filter : TaskFilter;
  search : option string
}.

(** The payload of the dialog for a new hire ([Partial<Employee>], of which
    these keys are read). *)
Record NewHire := {
  n_name : option string;
  n_email : option string;
  n_role : option string;
  n_manager : option string;
  n_startDate : option string
}.

(** The keys an imported [settings] object may hold; a key that is there
    replaces the whole value of the setting. *)
Record SettingsPatch := {
  sp_webhookEnabled : option bool;
  sp_webhookUrl : option string;
  sp_reminderDays : option Z;
  sp_owners : option (list string);
  sp_shared : option SharedSettings
}.

(** What [JSON.parse] makes of an imported file: it throws; it gives [null],
    on which reading [employees] throws; or it gives a value, of which
    [employees] is an array or not, and [settings] is truthy or not. *)
Inductive Parsed :=
  | ParseThrows
  | ParsedNull
  | ParsedValue (emps : option (list Employee)) (sets : option SettingsPatch).

(** The state of the page the commands below touch, and what it has shown
    in [alert]. *)
Record Page := {
  pg_employees : list Employee;
  pg_settings : Settings;
  pg_storage : LocalStorage;
  pg_alerts : list string
}.

(** What [downloadFile] is given. *)
Record Download (C : Type) := {
  dl_filename : string;
  dl_content : C;
  dl_type : string
}.
Arguments dl_filename {C} _.
Arguments dl_content {C} _.
Arguments dl_type {C} _.

(** [s.includes(sub)] *)
Fixpoint includes (s sub : string) : bool :=
  String.prefix sub s
  || match s with
     | EmptyString => false
     | String _ s' => includes s' sub
     end.

(** The names of the members of [Object.prototype], which every plain
    object inherits. *)
Definition Object_prototype_names : list string :=
  [ "constructor"; "hasOwnProperty"; "isPrototypeOf"; "propertyIsEnumerable";
    "toLocaleString"; "toString"; "valueOf"; "__proto__";
    "__defineGetter__"; "__defineSetter__"; "__lookupGetter__"; "__lookupSetter__" ].

(** [Object.fromEntries(entries)]: a later entry of a key replaces an
    earlier one. *)
Definition fromEntries {V} (entries : list (string * V)) : gmap string V :=
  foldl (fun m kv => <[kv.1 := kv.2]> m) ∅ entries.

(** The global replace of [exportCSV]: every line feed becomes a space. *)
Fixpoint replace_lf (s : string) : string :=
  match s with
  | EmptyString => EmptyString
  | String c s' =>
      if Ascii.eqb c LF then String " "%char (replace_lf s') else String c (replace_lf s')
  end.

(** An optional string as a property value. *)
Definition opt_value (o : option string) : JsValue :=
  match o with
  | Some s => JsString s
  | None => JsUndefined
  end.

Module ITOnboardingApp.
Section Page.
Variable random36 : nat -> string.
Variable toISODate : Z -> string.
(** [s.toLowerCase()] *)
Variable toLowerCase : string -> string.

(** The text the search looks in. *)
Definition search_text (e : Employee) : string :=
  Employee.name e +:+ " " +:+ nullish (Employee.role e) EmptyString
  +:+ " " +:+ nullish (Employee.manager e) EmptyString.

Definition search_hit (filters : ViewFilters) (e : Employee) : bool :=
  if truthy (search filters)
  then includes (toLowerCase (search_text e))
                (toLowerCase (nullish (search filters) EmptyString))
  else true.

(** The memo [filtered]. *)
Definition filtered (employees : list Employee) (filters : ViewFilters) : list Employee :=
  filter (fun e => search_hit filters e = true)
    (map (fun e =>
            Employee.mk (Employee.id e) (Employee.name e) (Employee.startDate e)
              (Employee.role e) (Employee.manager e) (Employee.email e)
              (filter (fun t => matchTaskHelper t (task_filter filters) = true)
                      (Employee.tasks e)))
         employees).

(** The memo [progressByEmp]. *)
Definition progressByEmp (employees : list Employee) : gmap string float :=
  fromEntries (map (fun e => (Employee.id e, calcProgress (Employee.tasks e))) employees).

(** What [progressByEmp[id] ?? 0] evaluates to: a number, or a member the
    object inherits. *)
Inductive Shown :=
  | ShownNumber (x : float)
  | ShownInherited (name : string).

(** What the page shows for an employee: [progressByEmp[e.id] ?? 0].
    [progressByEmp] is a plain object: a property of its own is read first;
    a name it lacks is looked up in [Object.prototype], whose members are
    not nullish, so that [?? 0] gives 0 only for the other names. *)
Definition shown_progress (employees : list Employee) (id : string) : Shown :=
  match progressByEmp employees !! id with
  | Some x => ShownNumber x
  | None =>
      if bool_decide (id ∈ Object_prototype_names) then ShownInherited id
      else ShownNumber 0%float
  end.

(** The employee [addEmployee] builds: the id is drawn first, then the
    template is cloned.  [now] and [today] are the two readings of the
    clock, for the start date and for the template. *)
Definition new_employee (now today : Z) (payload : NewHire) : Rand Employee :=
  rand_bind (uid random36 "emp") (fun id =>
  rand_bind (cloneTemplate random36 toISODate today) (fun ts =>
  rand_ret (Employee.mk id
              (default "New Hire" (n_name payload))
              (Some (default (toISODate now) (n_startDate payload)))
              (Some (default EmptyString (n_role payload)))
              (Some (default EmptyString (n_manager payload)))
              (Some (default EmptyString (n_email payload)))
              ts))).

Definition addEmployee {S} `{StorageAdapter S} (now today : Z) (payload : NewHire) (st : S)
  : Rand (Promise unit * S) :=
  rand_bind (new_employee now today payload) (fun e =>
  rand_ret (addEmployee e st)).

Definition removeEmployee {S} `{StorageAdapter S} (empId : string) (st : S)
  : Promise unit * S :=
  removeEmployee empId st.

(** The row [exportCSV] makes of a task. *)
Definition export_row (e : Employee) (t : Task) : Row :=
  [ ("employee", JsString (Employee.name e));
    ("email", opt_value (Employee.email e));
    ("role", opt_value (Employee.role e));
    ("manager", opt_value (Employee.manager e));
    ("startDate", opt_value (Employee.startDate e));
    ("category", JsString (Task.category t));
    ("task", JsString (Task.title t));
    ("status", JsString (status_text (Task.status t)));
    ("owner", JsString (nullish (Task.owner t) EmptyString));
    ("dueDate", JsString (nullish (Task.dueDate t) EmptyString));
    ("notes", JsString (replace_lf (nullish (Task.notes t) EmptyString))) ].

Definition export_rows (employees : list Employee) : list Row :=
  flat_map (fun e => map (export_row e) (Employee.tasks e)) employees.

Definition exportCSV (now : Z) (employees : list Employee) : Download string :=
  {| dl_filename := "onboarding_" +:+ toISODate now +:+ ".csv";
     dl_content := toCSV (export_rows employees);
     dl_type := "text/csv" |}.

(** The spread of imported settings over the settings. *)
Definition merge_settings (s : Settings) (p : SettingsPatch) : Settings :=
  {| webhookEnabled := default (webhookEnabled s) (sp_webhookEnabled p);
     webhookUrl := default (webhookUrl s) (sp_webhookUrl p);
     reminderDays := default (reminderDays s) (sp_reminderDays p);
     owners := default (owners s) (sp_owners p);
     shared := default (shared s) (sp_shared p) |}.

Definition with_alert (msg : string) (pg : Page) : Page :=
  {| pg_employees := pg_employees pg; pg_settings := pg_settings pg;
     pg_storage := pg_storage pg; pg_alerts := pg_alerts pg ++ [msg] |}.

Definition with_settings (p : option SettingsPatch) (pg : Page) : Page :=
  match p with
  | Some p =>
      {| pg_employees := pg_employees pg; pg_settings := merge_settings (pg_settings pg) p;
         pg_storage := pg_storage pg; pg_alerts := pg_alerts pg |}
  | None => pg
  end.

(** The handler [importJSON] sets on the reader. *)
Definition importJSON (file : Parsed) (pg : Page) : Page :=
  match file with
  | ParseThrows | ParsedNull => with_alert "Invalid JSON file" pg
  | ParsedValue emps sets =>
      match emps with
      | Some data =>
          if enabled (shared (pg_settings pg)) then
            with_alert "Import is only supported in local mode. Disable Shared mode first." pg
          else
            with_settings sets
              {| pg_employees := data; pg_settings := pg_settings pg;
                 pg_storage := Some (Json data); pg_alerts := pg_alerts pg |}
      | None => with_settings sets pg
      end
  end.
End Page.
End ITOnboardingApp.

Module SettingsPanel.
Section Panel.
(** [s.trim()] *)
Variable trim : string -> string.

(** [addOwner]: the new roster, the input being [ownerInput]. *)
Definition addOwner (ownerInput : string) (s : Settings) : Settings :=
  if negb (truthy (Some (trim ownerInput))) then s
  else
    {| webhookEnabled := webhookEnabled s; webhookUrl := webhookUrl s;
       reminderDays := reminderDays s;
       owners := set_order [] (owners s ++ [trim ownerInput]);
       shared := shared s |}.
End Panel.
End SettingsPanel.

(* ------------------------------------------------------------------ *)
(** ** The columns of the export *)

(** The keys of a row of [exportCSV], in the order they are written. *)
Definition export_columns : list string :=
  [ "employee"; "email"; "role"; "manager"; "startDate"; "category"; "task";
    "status"; "owner"; "dueDate"; "notes" ].

(** No field of the employee or of its tasks holds a line feed, the notes of
    the tasks set aside. *)
Definition export_lf_free (e : Employee) : Prop :=
  lf_free (Employee.name e) = true
  ∧ lf_free (nullish (Employee.email e) EmptyString) = true
  ∧ lf_free (nullish (Employee.role e) EmptyString) = true
  ∧ lf_free (nullish (Employee.manager e) EmptyString) = true
  ∧ lf_free (nullish (Employee.startDate e) EmptyString) = true
  ∧ ∀ t, t ∈ Employee.tasks e →
         lf_free (Task.category t) = true
         ∧ lf_free (Task.title t) = true
         ∧ lf_free (nullish (Task.owner t) EmptyString) = true
         ∧ lf_free (nullish (Task.dueDate t) EmptyString) = true.

(** The number of tasks of a collection. *)
Definition task_count (employees : list Employee) : nat :=
  sum_list (map (fun e => length (Employee.tasks e)) employees).

(** A task whose notes have two lines. *)
Definition noted_task : Task :=
  Task.mk "task_1" "Accounts" "Create email" InProgress (Some "Alice") None
    (Some (String "a" (String LF (String "b" EmptyString)))).

(* ------------------------------------------------------------------ *)
(** ** Sample pages *)

(** Settings with shared mode on. *)
Definition shared_settings : Settings :=
  {| webhookEnabled := false; webhookUrl := EmptyString; reminderDays := 2;
     owners := ["IT Queue"; "Alice"; "Bob"; "Charlie"];
     shared := {| enabled := true; provider := "firestore";
                  firebaseConfigText := "{}" |} |}.

(** A [trim] that leaves its argument as it is, for texts without blanks
    around them. *)
Definition no_trim (s : string) : string := s.

(* ------------------------------------------------------------------ *)
(** ** The snapshots that follow a subscription *)

(** [Object.values] lists the properties whose key is an array index first,
    in numeric order, and the other properties in the order they were
    added.  A key that is an array index is made of decimal digits, so a key
    that starts with another character is none. *)
Definition starts_with_digit (s : string) : bool :=
  match s with
  | EmptyString => false
  | String c _ => (48 <=? nat_of_ascii c) && (nat_of_ascii c <=? 57)
  end.

(** No employee document has an id that starts with a digit:
    [Object.values(base)] then lists the employees in the order the
    snapshot of the query brought them.  The ids [uid] makes for employees
    start with emp_. *)
Definition query_ordered (d : Firestore) : Prop :=
  ∀ id, is_Some (employees d !! id) → starts_with_digit id = false.

(** The employees of the first parent snapshot, without tasks yet. *)
Definition bare_employees (d : Firestore) : list Employee :=
  map (fun doc => Remote.employee_of_doc doc.1 doc.2 []) (Remote.employee_docs d).

(** [ensure()] resolves, the parent listener receives the collection, and
    then every task listener it attached receives its sub-collection, in
    the order they were attached. *)
Definition first_snapshots (d : Firestore) : list RemoteSubscribe.Event :=
  RemoteSubscribe.EnsureResolved
    :: RemoteSubscribe.ParentSnapshot 0
    :: map (fun s => RemoteSubscribe.TaskSnapshot s.2 s.1)
           (RemoteSubscribe.attach_tasks 1 (bare_employees d)).

(** The tasks of the employees whose id is in [done] are those of the
    database. *)
Definition with_tasks (d : Firestore) (done : list string) (emps : list Employee)
  : list Employee :=
  map (fun e => if bool_decide (Employee.id e ∈ done)
                then Employee.mk (Employee.id e) (Employee.name e) (Employee.startDate e)
                       (Employee.role e) (Employee.manager e) (Employee.email e)
                       (Remote.task_docs d (Employee.id e))
                else e) emps.

(** A [toLowerCase] that leaves its argument as it is, for texts in lower
    case, and two states of the filters. *)
Definition keep_case (s : string) : string := s.

Definition open_tasks_filter : ViewFilters :=
  {| task_filter := {| f_status := Some "Not Started"; f_owner := None |};
     search := None |}.

Definition no_filter : ViewFilters :=
  {| task_filter := {| f_status := None; f_owner := Some EmptyString |};
     search := Some EmptyString |}.

(* ================================================================== *)
(** * Properties *)

(* ------------------------------------------------------------------ *)
(** ** The filter predicate *)

Lemma truthy_Some s : truthy (Some s) = true ↔ s ≠ EmptyString.
Proof.
  unfold truthy. rewrite negb_true_iff. split.
  - intros H ->. discriminate.
  - intros H. by apply String.eqb_neq.
Qed.

(** C5: a filter whose present fields equal the fields of the task (an absent
    owner of the task read as the empty string) matches, and a filter that
    matches has every field that is present and not empty equal to the field
    of the task: a status or an owner that differs, or an owner the task
    does not have, makes it false.  The filter without fields matches every
    task; a filter with only a status, or only an owner, that is not empty
    matches exactly the tasks with that status, or that owner; so the filter
    with owner Alice matches exactly the tasks whose owner is Alice. *)
Theorem matchTaskHelper_equal_fields (t : Task) (f : TaskFilter) :
  ((∀ s, f_status f = Some s → status_text (Task.status t) = s) →
   (∀ o, f_owner f = Some o → nullish (Task.owner t) EmptyString = o) →
   matchTaskHelper t f = true)
  ∧ (matchTaskHelper t f = true →
     (∀ s, f_status f = Some s → s ≠ EmptyString → status_text (Task.status t) = s)
     ∧ (∀ o, f_owner f = Some o → o ≠ EmptyString → Task.owner t = Some o))
  ∧ matchTaskHelper t {| f_status := None; f_owner := None |} = true
  ∧ (∀ s, s ≠ EmptyString →
       (matchTaskHelper t {| f_status := Some s; f_owner := None |} = true
        ↔ status_text (Task.status t) = s))
  ∧ (∀ o, o ≠ EmptyString →
       (matchTaskHelper t {| f_status := None; f_owner := Some o |} = true
        ↔ Task.owner t = Some o))
  ∧ (matchTaskHelper t {| f_status := None; f_owner := Some "Alice" |} = true
     ↔ Task.owner t = Some "Alice").
Proof.
  assert (∀ o, o ≠ EmptyString →
            (matchTaskHelper t {| f_status := None; f_owner := Some o |} = true
             ↔ Task.owner t = Some o)) as Howner.
  { intros o Ho. unfold matchTaskHelper. cbn [f_status f_owner nullish].
    change (truthy None) with false. cbn [andb].
    rewrite (proj2 (truthy_Some o) Ho). cbn [andb].
    destruct (Task.owner t) as [o'|]; cbn [nullish].
    - destruct (String.eqb_spec o' o) as [->|Hne]; cbn [negb]; [done|].
      split; [done|]. intros [= ->]. done.
    - destruct (String.eqb_spec EmptyString o) as [<-|Hne]; cbn [negb]; [done|].
      split; done. }
  split; [|split; [|split; [|split; [|split]]]].
  - intros Hs Ho. unfold matchTaskHelper.
    destruct (f_status f) as [s|] eqn:Es; destruct (f_owner f) as [o|] eqn:Eo; simpl.
    + rewrite (Hs s eq_refl), (Ho o eq_refl), !String.eqb_refl.
      by rewrite !andb_false_r.
    + rewrite (Hs s eq_refl), String.eqb_refl. by rewrite andb_false_r.
    + rewrite (Ho o eq_refl), String.eqb_refl. by rewrite andb_false_r.
    + done.
  - unfold matchTaskHelper. intros Hm. split.
    + intros s Es Hs. rewrite Es in Hm. cbn [nullish] in Hm.
      rewrite (proj2 (truthy_Some s) Hs) in Hm. cbn [andb] in Hm.
      destruct (String.eqb_spec (status_text (Task.status t)) s) as [E|Hne]; [done|].
      cbn [negb] in Hm. discriminate.
    + intros o Eo Ho. rewrite Eo in Hm. cbn [nullish] in Hm.
      rewrite (proj2 (truthy_Some o) Ho) in Hm. cbn [andb] in Hm.
      destruct (truthy (f_status f)
                && negb (String.eqb (status_text (Task.status t))
                                    (nullish (f_status f) EmptyString))); [discriminate|].
      destruct (Task.owner t) as [o'|]; cbn [nullish] in Hm.
      * destruct (String.eqb_spec o' o) as [->|Hne]; [done|].
        cbn [negb] in Hm. discriminate.
      * destruct (String.eqb_spec EmptyString o) as [E|Hne]; [by destruct Ho|].
        cbn [negb] in Hm. discriminate.
  - done.
  - intros s Hs. unfold matchTaskHelper. cbn [f_status f_owner nullish].
    rewrite (proj2 (truthy_Some s) Hs). change (truthy None) with false. cbn [andb].
    destruct (String.eqb_spec (status_text (Task.status t)) s) as [E|Hne]; cbn [negb].
    + done.
    + split; done.
  - exact Howner.
  - apply Howner. discriminate.
Qed.

Lemma matchTaskHelper_equal_fields_witness :
  matchTaskHelper dev_task {| f_status := Some "In Progress"; f_owner := Some "Alice" |} = true.
Proof.
  apply (proj1 (matchTaskHelper_equal_fields dev_task
                  {| f_status := Some "In Progress"; f_owner := Some "Alice" |})).
  - simpl. intros s [= <-]. reflexivity.
  - simpl. intros o [= <-]. reflexivity.
Defined.

(** C10: a filter field holding the empty string restricts nothing: the
    filter then decides as it does with that field absent, and the filters
    with only an empty status or only an empty owner match every task. *)
Theorem matchTaskHelper_empty_field (t : Task) (f : TaskFilter) :
  matchTaskHelper t {| f_status := Some EmptyString; f_owner := None |} = true
  ∧ matchTaskHelper t {| f_status := None; f_owner := Some EmptyString |} = true
  ∧ matchTaskHelper t {| f_status := Some EmptyString; f_owner := f_owner f |}
    = matchTaskHelper t {| f_status := None; f_owner := f_owner f |}
  ∧ matchTaskHelper t {| f_status := f_status f; f_owner := Some EmptyString |}
    = matchTaskHelper t {| f_status := f_status f; f_owner := None |}.
Proof. repeat split; reflexivity. Qed.

(* ------------------------------------------------------------------ *)
(** ** Progress *)

Lemma done_count_le tasks : done_count tasks ≤ length tasks.
Proof. apply length_filter. Qed.

Lemma calcProgress_counts tasks :
  tasks ≠ [] → calcProgress tasks = progress_of_counts (done_count tasks) (length tasks).
Proof.
  intros Hne. unfold calcProgress, progress_of_counts, done_count.
  destruct tasks as [|t ts]; [done|]. reflexivity.
Qed.

Lemma exact_progress_counts tasks :
  tasks ≠ [] → exact_progress tasks = exact_of_counts (done_count tasks) (length tasks).
Proof.
  intros Hne. unfold exact_progress, exact_of_counts, done_count.
  destruct tasks as [|t ts]; [done|].
  rewrite Z.max_r; [done|]. simpl length. lia.
Qed.

(** Below forty tasks the double-precision computation and the exact
    rounding agree. *)
Lemma progress_of_counts_small (d n : nat) :
  d ≤ n → 0 < n → n < 40 →
  progress_of_counts d n = number_of_Z (exact_of_counts d n).
Proof.
  intros Hd Hpos Hn.
  do 40 (destruct n as [|n];
         [ do 40 (destruct d as [|d]; [first [lia | vm_compute; reflexivity]|]); lia |]).
  lia.
Qed.

Lemma calcProgress_small tasks :
  length tasks < 40 → calcProgress tasks = number_of_Z (exact_progress tasks).
Proof.
  intros Hlen. destruct (decide (tasks = [])) as [->|Hne]; [reflexivity|].
  rewrite calcProgress_counts, exact_progress_counts by done.
  apply progress_of_counts_small; [apply done_count_le| |done].
  destruct tasks; [done|simpl; lia].
Qed.

Lemma exact_progress_range tasks : (0 ≤ exact_progress tasks ≤ 100)%Z.
Proof.
  unfold exact_progress.
  pose proof (done_count_le tasks) as Hd. unfold done_count in Hd.
  set (d := Z.of_nat (length (filter _ tasks))).
  set (n := Z.max 1 (Z.of_nat (length tasks))).
  assert (0 ≤ d ≤ n)%Z as Hdn by (unfold d, n; lia).
  assert (1 ≤ n)%Z as Hn by (unfold n; lia).
  split.
  - apply Z.div_pos; lia.
  - enough ((200 * d + n) `div` (2 * n) < 101)%Z by lia.
    apply Z.div_lt_upper_bound; lia.
Qed.

(** C4: the empty list has progress 0 and the list of the development test
    has progress 50, but with 23 of 40 tasks done the code answers 57 where
    the formula of the specification, 100 * 23 / 40 = 57.5 rounded, is 58: the
    quotient 23/40 is rounded to a double before it is multiplied by 100,
    and the product 57.49999999999999 falls below the tie. *)
Theorem calcProgress_tie_falls_short :
  calcProgress [] = 0%float
  ∧ calcProgress [sample_task "a" Done None; sample_task "b" NotStarted None] = 50%float
  ∧ length forty_tasks = 40
  ∧ done_count forty_tasks = 23
  ∧ exact_progress forty_tasks = 58%Z
  ∧ calcProgress forty_tasks = 57%float.
Proof. repeat split; vm_compute; reflexivity. Qed.

(* ------------------------------------------------------------------ *)
(** ** The template *)

Section Template.
Variable random36 : nat -> string.
Variable toISODate : Z -> string.

(** The number of tasks over all categories. *)
Lemma template_task_count :
  sum_list (map (fun cat => length (snd cat)) DEFAULT_CATEGORIES) = 20.
Proof. reflexivity. Qed.

(** The identifiers of a clone are made of twenty consecutive draws. *)
Lemma cloneTemplate_ids (today : Z) (n : nat) :
  map Task.id (cloneTemplate random36 toISODate today n).1
  = map (fun k => "task_" +:+ String.substring 2 7 (random36 (k + n))) (seq 0 20).
Proof. reflexivity. Qed.

Lemma cloneTemplate_draws (today : Z) (n : nat) :
  (cloneTemplate random36 toISODate today n).2 = 20 + n.
Proof. reflexivity. Qed.

Lemma cloneTemplate_length (today : Z) (n : nat) :
  length (cloneTemplate random36 toISODate today n).1 = 20.
Proof. reflexivity. Qed.

Lemma cloneTemplate_NoDup (today : Z) (n : nat) :
  NoDup (map (fun k => String.substring 2 7 (random36 (k + n))) (seq 0 20)) ->
  NoDup (map Task.id (cloneTemplate random36 toISODate today n).1).
Proof.
  intros Hnd. rewrite cloneTemplate_ids.
  change (map (fun k => "task_" +:+ String.substring 2 7 (random36 (k + n))) (seq 0 20))
    with (map (String.app "task_")
              (map (fun k => String.substring 2 7 (random36 (k + n))) (seq 0 20))).
  apply (NoDup_fmap_2 (String.app "task_")). exact Hnd.
Qed.
End Template.

(** C8, as the code has it: whatever the clock and the random source, a clone
    has as many tasks as the categories of the template have together
    (twenty); its identifiers are pairwise distinct whenever the seven
    characters kept of the twenty draws are. *)
Theorem cloneTemplate_count_and_ids (random36 : nat -> string) (toISODate : Z -> string)
    (today : Z) (n : nat) :
  length (cloneTemplate random36 toISODate today n).1
  = sum_list (map (fun cat => length (snd cat)) DEFAULT_CATEGORIES)
  ∧ (NoDup (map (fun k => String.substring 2 7 (random36 (k + n))) (seq 0 20)) ->
     NoDup (map Task.id (cloneTemplate random36 toISODate today n).1)).
Proof.
  split.
  - rewrite cloneTemplate_length, template_task_count. reflexivity.
  - apply cloneTemplate_NoDup.
Qed.

Lemma cloneTemplate_count_and_ids_witness :
  NoDup (map Task.id (cloneTemplate letter_random36 epoch_date 0 0).1).
Proof.
  apply (proj2 (cloneTemplate_count_and_ids letter_random36 epoch_date 0 0)).
  vm_compute. repeat (constructor; [by (rewrite ?list_elem_of_In; simpl; intuition discriminate)|]).
  constructor.
Defined.

(** C8 fails as stated: when [Math.random] returns the same number twice the
    clone holds the same identifier twice. *)
Lemma cloneTemplate_ids_collide :
  ¬ NoDup (map Task.id (cloneTemplate stuck_random36 epoch_date 0 0).1).
Proof.
  intros Hnd. apply NoDup_cons_1_1 in Hnd. apply Hnd. left.
Qed.

(* ------------------------------------------------------------------ *)
(** ** CSV *)

Lemma set_order_elem_of (seen xs : list string) (x : string) :
  x ∈ set_order seen xs ↔ x ∈ xs ∧ x ∉ seen.
Proof.
  revert seen. induction xs as [|y xs IH]; intros seen; simpl.
  - split; [by intros ?%elem_of_nil | by intros [?%elem_of_nil _]].
  - case_bool_decide as Hy.
    + rewrite IH, elem_of_cons. split.
      * intros [Hx Hns]. split; [by right|done].
      * intros [[->|Hx] Hns]; done.
    + rewrite !elem_of_cons, IH, elem_of_cons. split.
      * intros [->|[Hx Hns]]; [by split; [left|]|].
        split; [by right|]. intros Hs. apply Hns. by right.
      * intros [[->|Hx] Hns]; [by left|].
        destruct (decide (x = y)) as [->|Hne]; [by left|]. right.
        split; [done|]. by intros [?|?].
Qed.

Lemma set_order_NoDup (seen xs : list string) : NoDup (set_order seen xs).
Proof.
  revert seen. induction xs as [|y xs IH]; intros seen; simpl; [constructor|].
  case_bool_decide; [apply IH|].
  constructor; [|apply IH].
  rewrite set_order_elem_of, elem_of_cons. intros [_ Hn]. apply Hn. by left.
Qed.

Lemma lf_free_app (a b : string) : lf_free (a +:+ b) = lf_free a && lf_free b.
Proof. induction a as [|c a IH]; simpl; [done|]. by rewrite IH, andb_assoc. Qed.

Lemma lf_free_join_comma (xs : list string) :
  Forall (fun x => lf_free x = true) xs → lf_free (join (String COMMA EmptyString) xs) = true.
Proof.
  unfold join. induction 1 as [|x xs Hx Hxs IH]; simpl; [done|].
  destruct xs as [|y ys]; [done|].
  rewrite lf_free_app, Hx. simpl. exact IH.
Qed.

Lemma lf_free_double_quotes (s : string) : lf_free (double_quotes s) = lf_free s.
Proof.
  induction s as [|c s IH]; simpl; [done|].
  destruct (Ascii.eqb_spec c DQUOTE) as [->|Hne]; simpl; by rewrite IH.
Qed.

Lemma lf_free_esc (v : JsValue) : lf_free (esc v) = lf_free (cell_text v).
Proof.
  unfold esc. simpl. rewrite lf_free_app, lf_free_double_quotes. simpl.
  by rewrite andb_true_r.
Qed.

Lemma get_prop_lf_free (r : Row) (h : string) :
  row_lf_free r → lf_free (cell_text (get_prop r h)) = true.
Proof.
  induction r as [|[k v] r IH]; intros Hr; simpl; [done|].
  destruct (String.eqb k h).
  - apply (Hr k v). by left.
  - apply IH. intros k' v' Hin. apply Hr. by right.
Qed.

Lemma split_lines_nonempty (s : string) : split_lines s ≠ [].
Proof.
  induction s as [|c s IH]; simpl; [done|].
  destruct (Ascii.eqb c LF); [done|]. by destruct (split_lines s).
Qed.

Lemma split_lines_app (a b : string) :
  lf_free a = true →
  split_lines (a +:+ String LF b) = a :: split_lines b.
Proof.
  induction a as [|c a IH]; simpl; intros Ha; [done|].
  apply andb_true_iff in Ha as [Hc Ha]. apply negb_true_iff in Hc.
  rewrite Hc, (IH Ha). done.
Qed.

Lemma split_lines_lf_free (a : string) : lf_free a = true → split_lines a = [a].
Proof.
  induction a as [|c a IH]; simpl; intros Ha; [done|].
  apply andb_true_iff in Ha as [Hc Ha]. apply negb_true_iff in Hc.
  by rewrite Hc, (IH Ha).
Qed.

Lemma split_lines_join (x : string) (xs : list string) :
  Forall (fun l => lf_free l = true) (x :: xs) →
  split_lines (join (String LF EmptyString) (x :: xs)) = x :: xs.
Proof.
  unfold join. revert x. induction xs as [|y ys IH]; intros x Hall.
  - simpl. apply split_lines_lf_free. by inv Hall.
  - inv Hall. change (String.concat (String LF EmptyString) (x :: y :: ys))
      with (x +:+ String LF (String.concat (String LF EmptyString) (y :: ys))).
    rewrite split_lines_app by done. f_equal. by apply IH.
Qed.


Lemma csv_headers_elem_of (rows : list Row) (k : string) :
  k ∈ csv_headers rows ↔ ∃ r, r ∈ rows ∧ k ∈ Object_keys r.
Proof.
  unfold csv_headers. rewrite set_order_elem_of, list_elem_of_In, in_flat_map.
  split.
  - intros [(r & Hr & Hk) _]. exists r. by rewrite !list_elem_of_In.
  - intros (r & Hr & Hk). split; [|by intros ?%elem_of_nil].
    exists r. by rewrite <-!list_elem_of_In.
Qed.




(* ------------------------------------------------------------------ *)
(** ** The local adapter *)

Lemma merge_patch_patched (t : Task) (p : Patch) : patched t p (merge_patch t p).
Proof.
  unfold patched, merge_patch, field_merged. simpl.
  destruct p as [i c ti s o d n]; simpl.
  destruct i, c, ti, s, o, d, n; simpl; repeat split.
Qed.

Lemma map_patch_tasks (taskId : string) (p : Patch) (ts : list Task) :
  tasks_patched taskId p ts
    (map (fun t => if bool_decide (Task.id t = taskId) then merge_patch t p else t) ts).
Proof.
  split; [apply length_map|].
  intros j t Hj. rewrite list_lookup_fmap, Hj. simpl.
  eexists; split; [done|]. case_bool_decide; split; try done.
  intros _. apply merge_patch_patched.
Qed.

Lemma map_patch_tasks_id (taskId : string) (p : Patch) (ts : list Task) :
  (∀ t, t ∈ ts → Task.id t ≠ taskId) →
  map (fun t => if bool_decide (Task.id t = taskId) then merge_patch t p else t) ts = ts.
Proof.
  intros Hno. induction ts as [|t ts IH]; simpl; [done|].
  rewrite bool_decide_eq_false_2 by (apply Hno; by left).
  f_equal. apply IH. intros t' Ht'. apply Hno. by right.
Qed.

(** C2: the local [updateTask] resolves; the collection read back has the
    employees of the one stored, position by position: an employee with
    another id as it was, an employee with the id the same but for its tasks,
    of which those with another id are as they were and those with the id
    have, field by field, the value of the patch where the patch has the
    field and the old value where it has not.  When no employee with the id
    holds a task with the id, the collection read back is the one stored. *)
Theorem local_updateTask_merges (s : LocalStorage) (empId taskId : string) (patch : Patch) :
  (updateTask empId taskId patch s).1 = Fulfilled tt
  ∧ length (Local.load (updateTask empId taskId patch s).2) = length (Local.load s)
  ∧ (∀ i e, Local.load s !! i = Some e →
       ∃ e', Local.load (updateTask empId taskId patch s).2 !! i = Some e'
             ∧ (Employee.id e ≠ empId → e' = e)
             ∧ (Employee.id e = empId →
                  same_but_tasks e e'
                  ∧ tasks_patched taskId patch (Employee.tasks e) (Employee.tasks e')))
  ∧ (¬ has_task empId taskId (Local.load s) →
       Local.load (updateTask empId taskId patch s).2 = Local.load s).
Proof.
  simpl. unfold Local.updateTask. simpl.
  split; [done|]. split; [apply length_map|]. split.
  - intros i e Hi. rewrite list_lookup_fmap, Hi. simpl.
    eexists; split; [done|].
    case_bool_decide as He; split; try done.
    intros _. split; [by repeat split|]. simpl. apply map_patch_tasks.
  - intros Hno. induction (Local.load s) as [|e data IH]; simpl; [done|].
    f_equal.
    + case_bool_decide as He; [done|].
      rewrite map_patch_tasks_id; [by destruct e|].
      intros t Ht Hid. apply Hno. exists e, t. repeat split; try done. by left.
    + apply IH. intros (e' & t & He' & Hid & Ht & Htid). apply Hno.
      exists e', t. repeat split; try done. by right.
Qed.

Lemma local_updateTask_merges_witness :
  Local.load (updateTask "emp_9" "task_1" (status_patch Done) one_hire).2
  = Local.load one_hire.
Proof.
  apply (proj2 (proj2 (proj2
           (local_updateTask_merges one_hire "emp_9" "task_1" (status_patch Done))))).
  intros (e & t & He & Hid & _). simpl in He.
  apply list_elem_of_singleton in He. subst e. discriminate Hid.
Defined.

(* ------------------------------------------------------------------ *)
(** ** The Firestore adapter *)

#[local] Instance doc_le_trans : Transitive Remote.doc_le.
Proof.
  intros x y z [Hxy Hxy'] [Hyz Hyz']. split.
  - by etrans.
  - intros Hzx.
    assert (String.le (d_name y.2) (d_name x.2)) as Hyx by (by etrans).
    assert (String.le (d_name z.2) (d_name y.2)) as Hzy by (by etrans).
    etrans; [by apply Hxy'|by apply Hyz'].
Qed.

#[local] Instance doc_le_total : Total Remote.doc_le.
Proof.
  intros x y. unfold Remote.doc_le.
  destruct (total String.le (d_name x.2) (d_name y.2)) as [Hn|Hn];
    destruct (total String.le x.1 y.1) as [Hi|Hi].
  - left. by split.
  - destruct (decide (String.le (d_name y.2) (d_name x.2))) as [Hn'|Hn'].
    + right. by split.
    + left. by split.
  - destruct (decide (String.le (d_name x.2) (d_name y.2))) as [Hn'|Hn'].
    + left. by split.
    + right. by split.
  - right. by split.
Qed.

#[local] Instance key_le_trans {A} : Transitive (@Remote.key_le A).
Proof. intros x y z. unfold Remote.key_le. apply transitivity. Qed.

#[local] Instance key_le_total {A} : Total (@Remote.key_le A).
Proof. intros x y. unfold Remote.key_le. apply total, _. Qed.

Lemma doc_le_antisym_key (x y : string * EmpDoc) :
  Remote.doc_le x y → Remote.doc_le y x → x.1 = y.1.
Proof.
  intros [Hxy Hxy'] [Hyx Hyx']. apply (anti_symm String.le); auto.
Qed.

Lemma StronglySorted_filter_keep {A} (R : relation A) (P : A → Prop)
    `{∀ x, Decision (P x)} (l : list A) :
  StronglySorted R l → StronglySorted R (filter P l).
Proof.
  induction 1 as [|x l Hl IH Hx]; [constructor|].
  rewrite filter_cons. case_decide; [|done].
  constructor; [done|]. rewrite Forall_forall in Hx |- *.
  intros y [_ Hy]%list_elem_of_filter. by apply Hx.
Qed.

Lemma map_to_list_delete_filter {A} (m : gmap string A) (k : string) :
  map_to_list (delete k m) ≡ₚ filter (fun x => x.1 ≠ k) (map_to_list m).
Proof.
  apply NoDup_Permutation.
  - apply NoDup_map_to_list.
  - apply NoDup_filter, NoDup_map_to_list.
  - intros [i x]. rewrite list_elem_of_filter, !elem_of_map_to_list. simpl.
    rewrite lookup_delete_Some. split; [intros [? ?]; by split|by intros [? ?]].
Qed.

(** The ordered read of a collection after a delete is the ordered read
    before with the deleted document taken out. *)
Lemma employee_docs_delete (m : gmap string EmpDoc) (k : string) :
  merge_sort Remote.doc_le (map_to_list (delete k m))
  = filter (fun x => x.1 ≠ k) (merge_sort Remote.doc_le (map_to_list m)).
Proof.
  apply (StronglySorted_unique_strong Remote.doc_le).
  - intros [i x] [j y] Hx Hy Hle1 Hle2.
    pose proof (doc_le_antisym_key _ _ Hle1 Hle2) as Hij. simpl in Hij. subst j.
    rewrite merge_sort_Permutation in Hx.
    apply elem_of_map_to_list, lookup_delete_Some in Hx as [_ Hx].
    apply list_elem_of_filter in Hy as [_ Hy].
    rewrite merge_sort_Permutation in Hy.
    apply elem_of_map_to_list in Hy. congruence.
  - apply StronglySorted_merge_sort; apply _.
  - apply StronglySorted_filter_keep, StronglySorted_merge_sort; apply _.
  - rewrite !merge_sort_Permutation. apply map_to_list_delete_filter.
Qed.

Lemma foldl_delete_lookup {A} (l : list (string * A)) (m : gmap string A) (i : string) :
  foldl (fun c d => delete d.1 c) m l !! i
  = if decide (i ∈ l.*1) then None else m !! i.
Proof.
  revert m. induction l as [|[k x] l IH]; intros m.
  - done.
  - rewrite fmap_cons. cbn [foldl fst]. rewrite IH.
    destruct (decide (i ∈ l.*1)) as [Hi|Hi];
      destruct (decide (i ∈ k :: l.*1)) as [Hi'|Hi']; try done.
    + exfalso. apply Hi'. by right.
    + apply elem_of_cons in Hi' as [->|?]; [apply lookup_delete_eq|done].
    + apply lookup_delete_ne. intros ->. apply Hi'. by left.
Qed.

Lemma foldl_delete_all {A} (m : gmap string A) :
  foldl (fun c d => delete d.1 c) m (map_to_list m) = ∅.
Proof.
  apply map_eq. intros i. rewrite foldl_delete_lookup, lookup_empty.
  case_decide as Hi; [done|].
  destruct (m !! i) as [x|] eqn:Hx; [|done].
  exfalso. apply Hi. apply list_elem_of_fmap. exists (i, x). split; [done|].
  by apply elem_of_map_to_list.
Qed.

Lemma task_docs_deleted (k : string) (db : Firestore) :
  Remote.task_docs (Remote.delete_employee k db) k = [].
Proof.
  unfold Remote.task_docs, Remote.delete_employee. simpl.
  rewrite lookup_insert_eq. simpl. rewrite foldl_delete_all, map_to_list_empty.
  reflexivity.
Qed.

Lemma task_docs_kept (k i : string) (db : Firestore) :
  i ≠ k → Remote.task_docs (Remote.delete_employee k db) i = Remote.task_docs db i.
Proof.
  intros Hne. unfold Remote.task_docs, Remote.delete_employee. simpl.
  by rewrite lookup_insert_ne.
Qed.

Lemma load_docs_delete_employee (k : string) (db : Firestore) :
  Remote.load_docs (Remote.delete_employee k db)
  = filter (fun e => Employee.id e ≠ k) (Remote.load_docs db).
Proof.
  unfold Remote.load_docs, Remote.employee_docs.
  change (employees (Remote.delete_employee k db)) with (delete k (employees db)).
  rewrite employee_docs_delete.
  induction (merge_sort Remote.doc_le (map_to_list (employees db))) as [|[i d] l IH];
    [done|].
  rewrite filter_cons. simpl. rewrite filter_cons. simpl.
  destruct (decide (i ≠ k)) as [Hne|Heq]; simpl.
  - rewrite task_docs_kept by done. by rewrite IH.
  - exact IH.
Qed.

Lemma load_docs_ids (db : Firestore) :
  map Employee.id (Remote.load_docs db) ≡ₚ (map_to_list (employees db)).*1.
Proof.
  assert (map Employee.id (Remote.load_docs db) = (Remote.employee_docs db).*1) as ->.
  { unfold Remote.load_docs. induction (Remote.employee_docs db) as [|doc l IH]; [done|].
    simpl. by rewrite IH. }
  unfold Remote.employee_docs. by rewrite merge_sort_Permutation.
Qed.

Lemma load_docs_NoDup (db : Firestore) : NoDup (map Employee.id (Remote.load_docs db)).
Proof. rewrite load_docs_ids. apply NoDup_fst_map_to_list. Qed.

(** A method called on a fresh adapter runs its body and leaves [imported]
    set; a method called with [imported] set rejects and changes nothing. *)
Lemma method_first {A} (body : Firestore -> Promise A * Firestore) (db : Firestore) :
  Remote.method body (createFirestoreAdapter db)
  = ((body db).1, {| imported := true; database := (body db).2 |}).
Proof. unfold Remote.method. simpl. by destruct (body db). Qed.

Lemma method_again {A} (body : Firestore -> Promise A * Firestore) (a : FirestoreAdapter) :
  imported a = true → Remote.method body a = (Rejected Remote.TYPE_ERROR, a).
Proof. intros Hi. unfold Remote.method, Remote.ensure. by rewrite Hi. Qed.

Lemma method_imported {A} (body : Firestore -> Promise A * Firestore) (a : FirestoreAdapter) :
  imported (Remote.method body a).2 = true.
Proof.
  unfold Remote.method, Remote.ensure. destruct (imported a) eqn:Hi; simpl; [done|].
  by destruct (body (database a)).
Qed.

Lemma remote_load_fulfilled (a : FirestoreAdapter) (data : list Employee) :
  (Remote.load a).1 = Fulfilled data → data = Remote.load_docs (database a).
Proof.
  unfold Remote.load, Remote.method, Remote.ensure.
  destruct (imported a); simpl; [discriminate|]. by intros [= <-].
Qed.

(* ------------------------------------------------------------------ *)
(** ** Removing an employee *)

(** What the local [removeEmployee] leaves is the collection without the
    employees of that id, the others as they were and in their order. *)
Lemma local_removeEmployee_load (k : string) (s : LocalStorage) :
  (removeEmployee k s).1 = Fulfilled tt
  ∧ (load (removeEmployee k s).2).1
    = Fulfilled (filter (fun e => Employee.id e ≠ k) (Local.load s))
  ∧ (∀ e, e ∈ Local.load (removeEmployee k s).2 ↔ e ∈ Local.load s ∧ Employee.id e ≠ k).
Proof.
  split; [done|]. split; [done|]. intros e. simpl.
  rewrite list_elem_of_filter. tauto.
Qed.

(** C3: after the local [removeEmployee], [load] returns the collection
    without the employees of that id.  The Firestore adapter called first
    with [removeEmployee] resolves and leaves the database with the
    collection without the employee and with no task document of that
    employee; but [load] then called on the adapter rejects:
    [ensure] finds [imported] set and returns an object without
    [firestore]. *)
Theorem removeEmployee_then_load (k : string) (s : LocalStorage) (db : Firestore) :
  ((removeEmployee k s).1 = Fulfilled tt
   ∧ (load (removeEmployee k s).2).1
     = Fulfilled (filter (fun e => Employee.id e ≠ k) (Local.load s)))
  ∧ ((removeEmployee k (createFirestoreAdapter db)).1 = Fulfilled tt
     ∧ Remote.load_docs (database (removeEmployee k (createFirestoreAdapter db)).2)
       = filter (fun e => Employee.id e ≠ k) (Remote.load_docs db)
     ∧ Remote.task_docs (database (removeEmployee k (createFirestoreAdapter db)).2) k = []
     ∧ (load (removeEmployee k (createFirestoreAdapter db)).2).1
       = Rejected Remote.TYPE_ERROR).
Proof.
  split; [by split|].
  change (removeEmployee k (createFirestoreAdapter db))
    with (Remote.method (fun db => (Fulfilled tt, Remote.delete_employee k db))
            (createFirestoreAdapter db)).
  rewrite method_first. simpl.
  split; [done|]. split; [apply load_docs_delete_employee|].
  split; [apply task_docs_deleted|]. reflexivity.
Qed.

(* ------------------------------------------------------------------ *)
(** ** Employee ids *)

Lemma local_updateTask_ids (empId taskId : string) (patch : Patch) (s : LocalStorage) :
  ids (Local.load (Local.updateTask empId taskId patch s)) = ids (Local.load s).
Proof.
  unfold Local.updateTask, ids. simpl.
  induction (Local.load s) as [|e data IH]; simpl; [done|].
  rewrite IH. f_equal. by case_bool_decide.
Qed.

Lemma local_removeEmployee_ids (k : string) (s : LocalStorage) :
  ids (Local.load (Local.removeEmployee k s)) `sublist_of` ids (Local.load s).
Proof. unfold Local.removeEmployee, ids. simpl. apply fmap_sublist, sublist_filter. Qed.

Lemma local_step_unique (s : LocalStorage) (op : Op) :
  NoDup (ids (Local.load s)) →
  match op with OpAdd e => Employee.id e ∉ ids (Local.load s) | _ => True end →
  NoDup (ids (Local.load (apply_op s op))).
Proof.
  intros Hnd Hfresh. destruct op as [e|empId taskId patch|k].
  - change (NoDup (Employee.id e :: ids (Local.load s))). by constructor.
  - change (NoDup (ids (Local.load (Local.updateTask empId taskId patch s)))).
    by rewrite local_updateTask_ids.
  - change (NoDup (ids (Local.load (Local.removeEmployee k s)))).
    eapply sublist_NoDup; [exact Hnd|]. apply local_removeEmployee_ids.
Qed.

Lemma local_run_unique (ops : list Op) (s : LocalStorage) :
  NoDup (ids (Local.load s)) → adds_fresh s ops →
  NoDup (ids (Local.load (foldl apply_op s ops))).
Proof.
  revert s. induction ops as [|op ops IH]; intros s Hnd Hfresh; simpl; [done|].
  destruct Hfresh as [Hop Hrest]. apply IH; [|done]. by apply local_step_unique.
Qed.

(** C9, as the code has it: in the local store the employee ids stay
    pairwise distinct through every run of adapter calls in which each
    [addEmployee] brings an id the store does not hold at that time
    ([updateTask] and [removeEmployee] keep them distinct by themselves);
    whatever the Firestore adapter loads has pairwise distinct ids, in every
    state of the database, the id being the key of the document. *)
Theorem employee_ids_unique (s : LocalStorage) (ops : list Op) (a : FirestoreAdapter) :
  (NoDup (ids (Local.load s)) → adds_fresh s ops →
   NoDup (ids (Local.load (foldl apply_op s ops))))
  ∧ NoDup (ids (Remote.load_docs (database a)))
  ∧ (∀ data, (load a).1 = Fulfilled data → NoDup (ids data)).
Proof.
  split; [apply local_run_unique|]. split; [apply load_docs_NoDup|].
  intros data Hload. apply remote_load_fulfilled in Hload as ->. apply load_docs_NoDup.
Qed.

Lemma employee_ids_unique_witness :
  NoDup (ids (Local.load
    (foldl apply_op None
       [OpAdd jane; OpAdd omar; OpUpdate "emp_1" "task_1" (status_patch Done);
        OpRemove "emp_1"])))
  ∧ NoDup (ids (Remote.load_docs one_doc_db)).
Proof.
  split.
  - apply (proj1 (employee_ids_unique None
             [OpAdd jane; OpAdd omar; OpUpdate "emp_1" "task_1" (status_patch Done);
              OpRemove "emp_1"] (createFirestoreAdapter one_doc_db))).
    + simpl. constructor.
    + simpl. repeat split.
      * by intros ?%elem_of_nil.
      * intros Hin. apply list_elem_of_singleton in Hin. discriminate Hin.
  - apply (proj2 (proj2 (employee_ids_unique None [] (createFirestoreAdapter one_doc_db)))).
    reflexivity.
Defined.

(** C9 fails as stated: from the empty store, adding one employee twice
    leaves two employees with one id. *)
Lemma local_addEmployee_duplicates :
  ¬ NoDup (ids (Local.load (foldl apply_op None [OpAdd jane; OpAdd jane]))).
Proof.
  simpl. intros Hnd. apply NoDup_cons_1_1 in Hnd. apply Hnd. by left.
Qed.

(* ------------------------------------------------------------------ *)
(** ** The webhook *)

Lemma touches_truthy (p : Patch) :
  truthy (status_text <$> Patch.status p) || truthy (mjoin (Patch.owner p)) = true
  ↔ touches_status_or_owner p.
Proof.
  unfold touches_status_or_owner. rewrite orb_true_iff. split.
  - intros [Hs|Ho].
    + left. destruct (Patch.status p); [by eexists|discriminate].
    + right. destruct (Patch.owner p) as [[o|]|]; simpl in Ho; try discriminate.
      exists o. split; [done|]. by apply truthy_Some.
  - intros [[st Hs]|(o & Ho & Hne)].
    + left. rewrite Hs. by destruct st.
    + right. rewrite Ho. simpl. by apply truthy_Some.
Qed.

Lemma webhook_on_truthy (settings : Settings) :
  webhookEnabled settings && truthy (Some (webhookUrl settings)) = true ↔ webhook_on settings.
Proof. unfold webhook_on. by rewrite andb_true_iff, truthy_Some. Qed.

(** C6: a notification that fails once [fetch] has returned is not caught.
    With the webhook switched on with a target, a patch that sets the
    status and a [fetch] whose promise rejects, the task is updated, the
    one request is made, and nothing is logged: the [try] around the call
    ends when [fetch] has returned its promise, which nobody awaits and
    whose rejection no handler receives.  Only a [fetch] that throws at
    the call reaches the [catch], which logs the failure.  In both cases
    the store is the one the adapter left. *)
Theorem app_updateTask_webhook_uncaught (now reason : string) :
  let request :=
    {| fetch_url := webhookUrl webhook_settings;
       fetch_method := "POST";
       fetch_headers := [("Content-Type", "application/json")];
       fetch_body := {| p_empId := "emp_1"; p_taskId := "task_1";
                        p_patch := status_patch Done;
                        p_event := "task.updated"; p_timestamp := now |} |} in
  let rejected :=
    App.updateTask webhook_settings now (FetchReturns (Rejected reason))
      "emp_1" "task_1" (status_patch Done) one_hire in
  let thrown :=
    App.updateTask webhook_settings now FetchThrows
      "emp_1" "task_1" (status_patch Done) one_hire in
  (fetched rejected = [request]
   ∧ warned rejected = []
   ∧ settled rejected = Fulfilled tt
   ∧ store rejected = (updateTask "emp_1" "task_1" (status_patch Done) one_hire).2)
  ∧ (fetched thrown = [request]
     ∧ warned thrown = ["Webhook failed"]
     ∧ settled thrown = Fulfilled tt
     ∧ store thrown = (updateTask "emp_1" "task_1" (status_patch Done) one_hire).2).
Proof. repeat split; reflexivity. Qed.

(** X29: the store the application's [updateTask] leaves and the way it
    settles are those of the adapter's [updateTask], whatever the call of
    [fetch] does.  When the adapter resolves, the webhook is switched on
    with a target, and the patch has a status or a non-empty owner, there is
    exactly one call of [fetch]: a POST to the target whose body holds the
    event name task.updated, the timestamp, the employee id, the task id and
    the patch; in every other case there is none.  A line is logged only
    when the request is made and [fetch] throws at the call. *)
Theorem app_updateTask_webhook {S} `{StorageAdapter S} (settings : Settings) (now : string)
    (net : FetchBehaviour) (empId taskId : string) (patch : Patch) (st : S) :
  let run := App.updateTask settings now net empId taskId patch st in
  (settled run = (updateTask empId taskId patch st).1
   ∧ store run = (updateTask empId taskId patch st).2)
  ∧ ((updateTask empId taskId patch st).1 = Fulfilled tt →
     webhook_on settings → touches_status_or_owner patch →
     fetched run
     = [ {| fetch_url := webhookUrl settings;
            fetch_method := "POST";
            fetch_headers := [("Content-Type", "application/json")];
            fetch_body := {| p_empId := empId; p_taskId := taskId; p_patch := patch;
                             p_event := "task.updated"; p_timestamp := now |} |} ])
  ∧ (¬ (webhook_on settings ∧ touches_status_or_owner patch) → fetched run = [])
  ∧ ((updateTask empId taskId patch st).1 ≠ Fulfilled tt → fetched run = [])
  ∧ warned run = match net with
                 | FetchThrows =>
                     match fetched run with [] => [] | _ :: _ => ["Webhook failed"] end
                 | FetchReturns _ => []
                 end.
Proof.
  intros run. subst run. unfold App.updateTask.
  destruct (updateTask empId taskId patch st) as [r st'] eqn:Hcall. cbn [fst snd].
  destruct r as [[]|reason].
  - destruct (webhookEnabled settings && truthy (Some (webhookUrl settings))
              && (truthy (status_text <$> Patch.status patch)
                  || truthy (mjoin (Patch.owner patch)))) eqn:Hcond; simpl.
    + apply andb_true_iff in Hcond as [Hon Htouch].
      apply webhook_on_truthy in Hon. apply touches_truthy in Htouch.
      repeat split; try done. intros Hn. exfalso. by apply Hn.
    + repeat split; try done.
      * intros _ Hon%webhook_on_truthy Htouch%touches_truthy.
        rewrite Hon, Htouch in Hcond. discriminate.
      * by destruct net.
  - repeat split; try done. by destruct net.
Qed.

Lemma app_updateTask_webhook_witness :
  length (fetched (App.updateTask webhook_settings "2025-08-10T12:34:56.000Z"
                     (FetchReturns (Rejected "offline"))
                     "emp_1" "task_1" (status_patch Done) one_hire)) = 1.
Proof.
  rewrite (proj1 (proj2 (app_updateTask_webhook webhook_settings
             "2025-08-10T12:34:56.000Z" (FetchReturns (Rejected "offline"))
             "emp_1" "task_1" (status_patch Done) one_hire))).
  - reflexivity.
  - reflexivity.
  - split; [reflexivity|discriminate].
  - left. by eexists.
Defined.

(** With the settings the application starts with, the webhook is off, and
    a patch that sets the status fires no request. *)
Lemma app_updateTask_webhook_off :
  touches_status_or_owner (status_patch Done)
  ∧ fetched (App.updateTask default_settings "2025-08-10T12:34:56.000Z"
               (FetchReturns (Fulfilled tt))
               "emp_1" "task_1" (status_patch Done) one_hire) = [].
Proof. split; [left; by eexists|reflexivity]. Qed.

(* ------------------------------------------------------------------ *)
(** ** Subscriptions *)

Import LocalSubscribe.

Lemma local_drain (n : nat) (w : World) :
  length (microtasks w) = n →
  LocalSubscribe.calls (run w (replicate n Microtask))
  = LocalSubscribe.calls w ++ microtasks w.
Proof.
  revert w. induction n as [|n IH]; intros w Hn.
  - destruct (microtasks w); [|discriminate]. simpl. by rewrite app_nil_r.
  - destruct (microtasks w) as [|job q] eqn:Hq; [discriminate|].
    change (run w (replicate (S n) Microtask))
      with (run (run_microtask w) (replicate n Microtask)).
    assert (microtasks (run_microtask w) = q) as Hq'
      by (unfold run_microtask; by rewrite Hq).
    rewrite IH, Hq' by (rewrite Hq'; simpl in Hn; lia).
    unfold run_microtask. rewrite Hq. simpl. by rewrite <-app_assoc.
Qed.

(** Initial delivery of the local adapter: once the reactions waiting at the
    time of [subscribe] and its own have run, the callback has been called
    with the collection the store held at the time of [subscribe]. *)
Lemma local_initial_delivery (cb : nat) (w : World) :
  LocalSubscribe.calls
    (run (subscribe cb w).2 (replicate (S (length (microtasks w))) Microtask))
  = LocalSubscribe.calls w ++ microtasks w ++ [(cb, Local.load (storage w))].
Proof.
  rewrite local_drain; [done|]. simpl. rewrite length_app. simpl. lia.
Qed.

Lemma quiet_step (cb : nat) (w : World) (ev : Event) :
  quiet cb w → not_subscribe cb ev →
  quiet cb (step w ev) ∧ calls_of cb (step w ev) = calls_of cb w.
Proof.
  intros Hquiet Hev. pose proof Hquiet as [Hh Hm].
  destruct ev as [cb'|h| |key newValue]; simpl in *.
  - split; [split|done]; simpl.
    + intros hc [?|Heq%list_elem_of_singleton]%elem_of_app; [by apply Hh|subst; exact Hev].
    + intros job [?|Heq%list_elem_of_singleton]%elem_of_app; [by apply Hm|subst; exact Hev].
  - split; [split|done]; simpl; [|done].
    intros hc [_ ?]%list_elem_of_filter. by apply Hh.
  - unfold run_microtask. destruct (microtasks w) as [|job rest] eqn:Hq;
      [by split|].
    split; [split|]; simpl.
    + done.
    + intros job' Hin. apply Hm. by right.
    + unfold calls_of. simpl. rewrite filter_app, fmap_app.
      rewrite filter_cons_False by (apply Hm; by left).
      by rewrite app_nil_r.
  - split; [split|]; simpl; [done|done|].
    unfold calls_of. simpl. rewrite filter_app, fmap_app.
    enough (filter (fun c => c.1 = cb)
              (flat_map (fun hc => handler_calls key newValue hc.2) (handlers w)) = []) as ->
      by (by rewrite app_nil_r).
    induction (handlers w) as [|hc hs IH]; [done|].
    simpl. rewrite filter_app, IH by (intros ??; apply Hh; by right).
    rewrite app_nil_r. unfold handler_calls.
    assert (hc.2 ≠ cb) as Hne by (apply Hh; by left).
    case_bool_decide; [|done].
    destruct newValue as [[data| |]|]; try done;
      by rewrite filter_cons_False.
Qed.

(** Once nothing is bound to the callback, no event other than a new
    subscription of it calls it. *)
Lemma quiet_run (cb : nat) (evs : list Event) (w : World) :
  quiet cb w → Forall (not_subscribe cb) evs →
  calls_of cb (run w evs) = calls_of cb w.
Proof.
  revert w. induction evs as [|ev evs IH]; intros w Hq Hevs; [done|].
  inv Hevs. destruct (quiet_step cb w ev) as [Hq' Hc]; [done..|].
  unfold run in *. simpl. by rewrite IH, Hc.
Qed.

(** When the disposer of the local adapter is called after the initial
    delivery, the callback has been called once, with the collection, and is
    not called again. *)
Lemma local_dispose_after_delivery (s : LocalStorage) (cb : nat) (evs : list Event) :
  Forall (not_subscribe cb) evs →
  calls_of cb (run (initial s) (Subscribe cb :: Microtask :: Dispose 0 :: evs))
  = [Local.load s].
Proof.
  intros Hevs. unfold run. simpl foldl at 1.
  change (foldl step ?w evs) with (run w evs). rewrite quiet_run; [| |done].
  - unfold calls_of, dispose, run_microtask. simpl.
    by rewrite filter_cons_True.
  - split; simpl; intros ? Hin; by apply elem_of_nil in Hin.
Qed.

Import RemoteSubscribe.

Lemma owned_step (w : RemoteSubscribe.World) (ev : RemoteSubscribe.Event) :
  owned w → owned (RemoteSubscribe.step w ev).
Proof.
  intros [Hp Ho]. destruct ev as [|l|l empId| |db']; simpl.
  - unfold ensure_resolved. by rewrite Hp.
  - unfold parent_snapshot. case_bool_decide; [|done]. split; [done|]. simpl.
    intros l' [Hin|Hin]%elem_of_app.
    + apply list_elem_of_filter in Hin as [Hnot Hin].
      destruct (Ho l' Hin) as [?|?]; [by left|done].
    + right. apply list_elem_of_fmap in Hin as (sub & -> & Hsub). simpl.
      apply list_elem_of_fmap. by exists sub.
  - unfold task_snapshot. case_bool_decide; [|done]. by split.
  - split; [done|]. simpl. intros l' [Hnot Hin]%list_elem_of_filter.
    destruct (unsubEmp w) as [l0|] eqn:Hl0.
    + apply list_elem_of_filter in Hin as [Hne Hin].
      destruct (Ho l' Hin) as [[= ->]|?]; [|done].
      exfalso. apply Hne. by left.
    + destruct (Ho l' Hin) as [?|?]; done.
  - by split.
Qed.

Lemma owned_dispose (w : RemoteSubscribe.World) :
  owned w → attached (RemoteSubscribe.dispose w) = [].
Proof.
  intros Ho. pose proof (owned_step w Dispose Ho) as [_ Ho'].
  change (RemoteSubscribe.step w Dispose) with (RemoteSubscribe.dispose w) in Ho'.
  destruct (attached (RemoteSubscribe.dispose w)) as [|l ls] eqn:Ha; [done|].
  exfalso.
  assert (l ∈ attached (RemoteSubscribe.dispose w)) as Hin by (rewrite Ha; by left).
  destruct (Ho' l) as [Hl|Hl]; [by left| |by apply elem_of_nil in Hl].
  unfold RemoteSubscribe.dispose in Hin, Hl. simpl in Hin, Hl.
  apply list_elem_of_filter in Hin as [_ Hin]. rewrite Hl in Hin.
  apply list_elem_of_filter in Hin as [Hne _]. apply Hne. by left.
Qed.

Lemma detached_step (w : RemoteSubscribe.World) (ev : RemoteSubscribe.Event) :
  ensure_pending w = None → attached w = [] →
  ensure_pending (RemoteSubscribe.step w ev) = None
  ∧ attached (RemoteSubscribe.step w ev) = []
  ∧ RemoteSubscribe.calls (RemoteSubscribe.step w ev) = RemoteSubscribe.calls w.
Proof.
  intros Hp Ha. destruct ev as [|l|l empId| |db']; simpl.
  - unfold ensure_resolved. by rewrite Hp.
  - unfold parent_snapshot. rewrite Ha.
    rewrite bool_decide_eq_false_2 by (by intros ?%elem_of_nil). done.
  - unfold task_snapshot. rewrite Ha.
    rewrite bool_decide_eq_false_2 by (by intros ?%elem_of_nil). done.
  - unfold RemoteSubscribe.dispose. simpl. rewrite Ha.
    split; [done|]. split; [|done]. by destruct (unsubEmp w).
  - done.
Qed.

Lemma owned_run (evs : list RemoteSubscribe.Event) (w : RemoteSubscribe.World) :
  owned w → owned (RemoteSubscribe.run w evs).
Proof.
  revert w. induction evs as [|ev evs IH]; intros w Ho; [done|].
  apply (IH (RemoteSubscribe.step w ev)). by apply owned_step.
Qed.

Lemma detached_run (evs : list RemoteSubscribe.Event) (w : RemoteSubscribe.World) :
  ensure_pending w = None → attached w = [] →
  RemoteSubscribe.calls (RemoteSubscribe.run w evs) = RemoteSubscribe.calls w.
Proof.
  revert w. induction evs as [|ev evs IH]; intros w Hp Ha; [done|].
  destruct (detached_step w ev Hp Ha) as (Hp' & Ha' & Hc).
  change (RemoteSubscribe.run w (ev :: evs))
    with (RemoteSubscribe.run (RemoteSubscribe.step w ev) evs).
  by rewrite IH.
Qed.

(** When the disposer of the Firestore adapter is called after the parent
    listener has been attached, no listener is left and the callback is not
    called again. *)
Lemma remote_dispose_after_attach (d : Firestore)
    (before after : list RemoteSubscribe.Event) :
  let w := RemoteSubscribe.run (RemoteSubscribe.subscribed (createFirestoreAdapter d))
             (EnsureResolved :: before ++ [Dispose]) in
  attached w = []
  ∧ RemoteSubscribe.calls (RemoteSubscribe.run w after) = RemoteSubscribe.calls w.
Proof.
  intros w.
  set (w0 := ensure_resolved (RemoteSubscribe.subscribed (createFirestoreAdapter d))).
  assert (w = RemoteSubscribe.dispose (RemoteSubscribe.run w0 before)) as ->.
  { subst w. unfold RemoteSubscribe.run. simpl. by rewrite foldl_app. }
  assert (owned (RemoteSubscribe.run w0 before)) as Ho.
  { apply owned_run. split; [done|]. simpl.
    intros l Hl%list_elem_of_singleton. subst. by left. }
  pose proof (owned_dispose _ Ho) as Ha. split; [exact Ha|].
  apply detached_run; [apply Ho|exact Ha].
Qed.

(** A subscription made on an adapter whose [imported] is already set never
    attaches a listener and never calls the callback. *)
Lemma remote_subscribe_imported (a : FirestoreAdapter) (evs : list RemoteSubscribe.Event) :
  imported a = true →
  RemoteSubscribe.calls
    (RemoteSubscribe.run (RemoteSubscribe.subscribed a)
       (EnsureResolved :: evs)) = [].
Proof.
  intros Hi.
  change (RemoteSubscribe.run ?w (EnsureResolved :: evs))
    with (RemoteSubscribe.run (ensure_resolved w) evs).
  unfold RemoteSubscribe.subscribed, RemoteSubscribe.subscribe, ensure_resolved.
  simpl. rewrite Hi. simpl.
  by rewrite detached_run.
Qed.

(** Initial delivery of the Firestore adapter: the first call comes with the
    first parent snapshot and carries every employee with no tasks yet; the
    tasks of an employee come with the snapshot of its task listener. *)
Lemma remote_initial_delivery (d : Firestore) :
  RemoteSubscribe.calls
    (RemoteSubscribe.run (RemoteSubscribe.subscribed (createFirestoreAdapter d))
       [EnsureResolved; ParentSnapshot 0])
  = [map (fun doc => Remote.employee_of_doc doc.1 doc.2 []) (Remote.employee_docs d)].
Proof.
  reflexivity.
Qed.

(** C1: a disposer called before the first delivery does not stop it.  Local
    adapter: after [subscribe] and the disposer the window has no handler
    left and the callback has not been called, and the reaction of [load]
    that is still waiting then calls it.  Firestore adapter: the disposer
    called before [ensure] resolves finds [unsubEmp] empty and detaches
    nothing; the parent listener is attached afterwards, and its next
    snapshot calls the callback.  And a subscription made on a Firestore
    adapter that has served a call before, here [load], is never delivered
    anything: [ensure] hands over no [firestore]. *)
Theorem dispose_before_delivery (s : LocalStorage) (cb : nat) (d : Firestore) :
  (LocalSubscribe.handlers
     (LocalSubscribe.run (LocalSubscribe.initial s)
        [LocalSubscribe.Subscribe cb; LocalSubscribe.Dispose 0]) = []
   ∧ LocalSubscribe.calls_of cb
       (LocalSubscribe.run (LocalSubscribe.initial s)
          [LocalSubscribe.Subscribe cb; LocalSubscribe.Dispose 0]) = []
   ∧ LocalSubscribe.calls_of cb
       (LocalSubscribe.run (LocalSubscribe.initial s)
          [LocalSubscribe.Subscribe cb; LocalSubscribe.Dispose 0; LocalSubscribe.Microtask])
     = [Local.load s])
  ∧ (RemoteSubscribe.attached
       (RemoteSubscribe.run (RemoteSubscribe.subscribed (createFirestoreAdapter d))
          [RemoteSubscribe.Dispose; RemoteSubscribe.EnsureResolved])
     = [(0, RemoteSubscribe.ParentListener)]
     ∧ RemoteSubscribe.calls
         (RemoteSubscribe.run (RemoteSubscribe.subscribed (createFirestoreAdapter d))
            [RemoteSubscribe.Dispose; RemoteSubscribe.EnsureResolved]) = []
     ∧ RemoteSubscribe.calls
         (RemoteSubscribe.run (RemoteSubscribe.subscribed (createFirestoreAdapter d))
            [RemoteSubscribe.Dispose; RemoteSubscribe.EnsureResolved;
             RemoteSubscribe.ParentSnapshot 0])
       = [map (fun doc => Remote.employee_of_doc doc.1 doc.2 []) (Remote.employee_docs d)])
  ∧ (∀ evs, RemoteSubscribe.calls
              (RemoteSubscribe.run
                 (RemoteSubscribe.subscribed (load (createFirestoreAdapter d)).2)
                 (RemoteSubscribe.EnsureResolved :: evs)) = []).
Proof.
  split; [split; [|split]|split; [split; [|split]|]];
    [..|intros evs; by apply remote_subscribe_imported].
  - reflexivity.
  - reflexivity.
  - unfold LocalSubscribe.run, LocalSubscribe.calls_of. simpl.
    by rewrite filter_cons_True.
  - reflexivity.
  - reflexivity.
  - reflexivity.
Qed.

(* ------------------------------------------------------------------ *)
(** ** More on the filter predicate *)

Lemma truthy_false_cases (o : option string) :
  truthy o = false ↔ o = None ∨ o = Some EmptyString.
Proof.
  destruct o as [s|]; simpl.
  - rewrite negb_false_iff, String.eqb_eq. split; [intros ->; by right|].
    intros [?|[= ->]]; done.
  - split; [by left|done].
Qed.

(** X1: the predicate holds exactly when each filter field that is a
    non-empty string is the field of the task (an absent owner of the task
    read as the empty string); so it fails exactly when such a field
    differs. *)
Theorem matchTaskHelper_characterised (t : Task) (f : TaskFilter) :
  matchTaskHelper t f = true
  ↔ (truthy (f_status f) = true → f_status f = Some (status_text (Task.status t)))
    ∧ (truthy (f_owner f) = true → f_owner f = Some (nullish (Task.owner t) EmptyString)).
Proof.
  unfold matchTaskHelper.
  destruct (f_status f) as [s|], (f_owner f) as [o|]; simpl;
    repeat match goal with
           | |- context [String.eqb ?a ?b] => destruct (String.eqb_spec a b); simpl
           end; subst; split; try done;
    try (intros [H1 H2]; try (specialize (H1 eq_refl)); try (specialize (H2 eq_refl));
         congruence);
    try (intros _; split; intros; try done; congruence).
Qed.

Lemma matchTaskHelper_characterised_witness :
  matchTaskHelper dev_task {| f_status := Some "In Progress"; f_owner := Some EmptyString |} = true.
Proof.
  apply matchTaskHelper_characterised. split; simpl; [reflexivity|discriminate].
Defined.

(** X2: a filter decides as its status part and its owner part decide
    together. *)
Theorem matchTaskHelper_splits (t : Task) (f : TaskFilter) :
  matchTaskHelper t f
  = matchTaskHelper t {| f_status := f_status f; f_owner := None |}
    && matchTaskHelper t {| f_status := None; f_owner := f_owner f |}.
Proof.
  unfold matchTaskHelper. simpl.
  destruct (truthy (f_status f) && _); simpl; [done|].
  by destruct (truthy (f_owner f) && _).
Qed.

(* ------------------------------------------------------------------ *)
(** ** More on the progress *)

Lemma done_count_status (ts ts' : list Task) :
  map Task.status ts ≡ₚ map Task.status ts' → done_count ts = done_count ts'.
Proof.
  intros Hp. unfold done_count.
  assert (∀ l : list Task,
            length (filter (fun t => Task.status t = Done) l)
            = length (filter (fun s => s = Done) (map Task.status l))) as Hl.
  { induction l as [|x l IH]; [done|]. simpl. rewrite !filter_cons.
    destruct (decide (Task.status x = Done)); simpl; by rewrite IH. }
  rewrite !Hl. by rewrite Hp.
Qed.

Lemma calcProgress_by_counts (ts ts' : list Task) :
  done_count ts = done_count ts' → length ts = length ts' →
  calcProgress ts = calcProgress ts'.
Proof.
  intros Hd Hl. unfold calcProgress. unfold done_count in Hd. by rewrite Hd, Hl.
Qed.

(** X3: the progress reads the statuses only, and not their order: two lists
    whose statuses are the same up to order have the same progress. *)
Theorem calcProgress_statuses (ts ts' : list Task) :
  map Task.status ts ≡ₚ map Task.status ts' → calcProgress ts = calcProgress ts'.
Proof.
  intros Hp. apply calcProgress_by_counts.
  - by apply done_count_status.
  - by rewrite <-(length_map Task.status ts), Hp, length_map.
Qed.

Lemma calcProgress_statuses_witness :
  calcProgress [sample_task "a" Done None; sample_task "b" NotStarted (Some "Bob")]
  = calcProgress [sample_task "c" NotStarted None; sample_task "d" Done None].
Proof. apply calcProgress_statuses. simpl. apply perm_swap. Defined.

Lemma merge_patch_status (t : Task) (p : Patch) :
  Patch.status p = None → Task.status (merge_patch t p) = Task.status t.
Proof. intros Hs. unfold merge_patch. simpl. by rewrite Hs. Qed.

(** X4: a patch that has no status leaves the progress of every employee of
    the local store as it was. *)
Theorem local_updateTask_keeps_progress (s : LocalStorage) (empId taskId : string)
    (patch : Patch) :
  Patch.status patch = None →
  map (fun e => calcProgress (Employee.tasks e))
      (Local.load (Local.updateTask empId taskId patch s))
  = map (fun e => calcProgress (Employee.tasks e)) (Local.load s).
Proof.
  intros Hs. unfold Local.updateTask. simpl.
  induction (Local.load s) as [|e data IH]; simpl; [done|].
  rewrite IH. f_equal. case_bool_decide; [done|]. simpl.
  assert (map Task.status
            (map (fun t => if bool_decide (Task.id t = taskId)
                           then merge_patch t patch else t) (Employee.tasks e))
          = map Task.status (Employee.tasks e)) as Hst.
  { induction (Employee.tasks e) as [|t ts IHt]; simpl; [done|].
    rewrite IHt. f_equal. case_bool_decide; [|done]. by apply merge_patch_status. }
  apply calcProgress_by_counts.
  - apply done_count_status. by rewrite Hst.
  - by rewrite length_map.
Qed.

Lemma local_updateTask_keeps_progress_witness :
  map (fun e => calcProgress (Employee.tasks e))
      (Local.load (Local.updateTask "emp_1" "task_1"
                     (Patch.mk None None None None (Some (Some "Bob")) None None) one_hire))
  = map (fun e => calcProgress (Employee.tasks e)) (Local.load one_hire).
Proof. apply local_updateTask_keeps_progress. reflexivity. Defined.

Lemma number_of_Z_full (z : Z) :
  (0 ≤ z ≤ 100)%Z → number_of_Z z = 100%float → z = 100%Z.
Proof.
  intros Hz Hf.
  destruct (decide (z = 100%Z)) as [|Hne]; [done|]. exfalso.
  assert (∃ n : nat, n < 100 ∧ z = Z.of_nat n) as (n & Hn & ->).
  { exists (Z.to_nat z). lia. }
  clear Hz Hne. apply (f_equal Prim2SF) in Hf.
  do 100 (destruct n as [|n]; [vm_compute in Hf; discriminate Hf|]). lia.
Qed.

Lemma number_of_Z_none (z : Z) :
  (0 ≤ z ≤ 100)%Z → number_of_Z z = 0%float → z = 0%Z.
Proof.
  intros Hz Hf.
  destruct (decide (z = 0%Z)) as [|Hne]; [done|]. exfalso.
  assert (∃ n : nat, n < 100 ∧ z = Z.of_nat (S n)) as (n & Hn & ->).
  { exists (Z.to_nat z - 1). lia. }
  clear Hz Hne. apply (f_equal Prim2SF) in Hf.
  do 100 (destruct n as [|n]; [vm_compute in Hf; discriminate Hf|]). lia.
Qed.

Lemma done_count_all (ts : list Task) :
  done_count ts = length ts ↔ ∀ t, t ∈ ts → Task.status t = Done.
Proof.
  unfold done_count. induction ts as [|t ts IH]; simpl.
  - split; [by intros _ ? ?%elem_of_nil|done].
  - rewrite filter_cons. pose proof (length_filter (fun t => Task.status t = Done) ts) as Hle.
    destruct (decide (Task.status t = Done)) as [Hd|Hd]; simpl.
    + split.
      * intros [= Hl]. pose proof (proj1 IH Hl) as Hall.
        intros t' [->|?]%elem_of_cons; auto.
      * intros Hall. f_equal. apply (proj2 IH). intros t' Ht'. apply Hall. by right.
    + split; [lia|]. intros Hall. exfalso. apply Hd, Hall. by left.
Qed.

Lemma done_count_zero (ts : list Task) :
  done_count ts = 0 ↔ ∀ t, t ∈ ts → Task.status t ≠ Done.
Proof.
  unfold done_count. induction ts as [|t ts IH]; simpl.
  - split; [by intros _ ? ?%elem_of_nil|done].
  - rewrite filter_cons.
    destruct (decide (Task.status t = Done)) as [Hd|Hd]; simpl.
    + split; [done|]. intros Hall. exfalso. by apply (Hall t); [left|].
    + rewrite IH. split.
      * intros Hall t' [->|?]%elem_of_cons; auto.
      * intros Hall t' Ht'. apply Hall. by right.
Qed.

(** X5: for a list of one to thirty-nine tasks the progress is 100 exactly
    when every task is done, and 0 exactly when none is. *)
Theorem calcProgress_full_and_none (ts : list Task) :
  ts ≠ [] → length ts < 40 →
  (calcProgress ts = 100%float ↔ ∀ t, t ∈ ts → Task.status t = Done)
  ∧ (calcProgress ts = 0%float ↔ ∀ t, t ∈ ts → Task.status t ≠ Done).
Proof.
  intros Hne Hlen.
  pose proof (exact_progress_range ts) as Hr.
  pose proof (done_count_le ts) as Hd.
  assert (0 < length ts) as Hpos by (destruct ts; [done|simpl; lia]).
  rewrite calcProgress_small by done.
  rewrite <-done_count_all, <-done_count_zero.
  rewrite exact_progress_counts in * by done. unfold exact_of_counts in *.
  set (d := Z.of_nat (done_count ts)) in *. set (n := Z.of_nat (length ts)) in *.
  assert (0 ≤ d ≤ n)%Z as Hdn by (unfold d, n; lia).
  assert (0 < n < 40)%Z as Hn by (unfold n; lia).
  split; split.
  - intros Hf%number_of_Z_full; [|done].
    assert (200 * n ≤ 200 * d + n)%Z as Hge.
    { destruct (decide (200 * n ≤ 200 * d + n)%Z) as [|Hlt]; [done|]. exfalso.
      assert ((200 * d + n) `div` (2 * n) < 100)%Z; [|lia].
      apply Z.div_lt_upper_bound; lia. }
    unfold d, n in *. lia.
  - intros Hall. assert (d = n) as -> by (unfold d, n; lia).
    assert ((200 * n + n) `div` (2 * n) = 100)%Z as ->; [|reflexivity].
    symmetry. apply Z.div_unique with (r := n); lia.
  - intros Hf%number_of_Z_none; [|done].
    assert (200 * d + n < 2 * n)%Z as Hlt.
    { destruct (decide (200 * d + n < 2 * n)%Z) as [|Hge]; [done|]. exfalso.
      assert (1 ≤ (200 * d + n) `div` (2 * n))%Z; [|lia].
      apply Z.div_le_lower_bound; lia. }
    unfold d, n in *. lia.
  - intros Hz. assert (d = 0%Z) as -> by (unfold d; lia).
    rewrite Z.div_small by lia. reflexivity.
Qed.

Lemma calcProgress_full_and_none_witness :
  calcProgress [sample_task "a" Done None; sample_task "b" Done None] = 100%float.
Proof.
  apply (proj1 (calcProgress_full_and_none
                  [sample_task "a" Done None; sample_task "b" Done None]
                  ltac:(discriminate) ltac:(simpl; lia))).
  intros t Ht. rewrite list_elem_of_In in Ht. simpl in Ht.
  destruct Ht as [<-|[<-|[]]]; reflexivity.
Defined.

(* ------------------------------------------------------------------ *)
(** ** The filtered view *)

Section FilteredView.
Variable toLowerCase : string -> string.

Lemma filter_tasks_all (f : TaskFilter) (ts : list Task) :
  truthy (f_status f) = false → truthy (f_owner f) = false →
  filter (fun t => matchTaskHelper t f = true) ts = ts.
Proof.
  intros Hs Ho. induction ts as [|t ts IH]; [done|].
  rewrite filter_cons, IH. rewrite decide_True; [done|].
  unfold matchTaskHelper. by rewrite Hs, Ho.
Qed.

(** X6: every employee of the filtered view is an employee of the
    collection, the same but for its tasks: it has, in their order, those of
    its tasks that the task filter matches, and no others; and it passes the
    search. *)
Theorem filtered_sound (employees : list Employee) (filters : ViewFilters) (e' : Employee) :
  e' ∈ ITOnboardingApp.filtered toLowerCase employees filters →
  ITOnboardingApp.search_hit toLowerCase filters e' = true
  ∧ ∃ e, e ∈ employees
         ∧ same_but_tasks e e'
         ∧ Employee.tasks e' `sublist_of` Employee.tasks e
         ∧ ∀ t, t ∈ Employee.tasks e'
                ↔ t ∈ Employee.tasks e ∧ matchTaskHelper t (task_filter filters) = true.
Proof.
  unfold ITOnboardingApp.filtered.
  intros [Hhit Hin]%list_elem_of_filter. split; [done|].
  apply list_elem_of_fmap in Hin as (e & -> & He).
  exists e. split; [done|]. split; [by repeat split|]. simpl.
  split; [apply sublist_filter|]. intros t. rewrite list_elem_of_filter. tauto.
Qed.

(** X7: without a search term the view drops no employee: it has the
    employees of the collection one for one, in their order, also those none
    of whose tasks the filter matches; and when neither status nor owner is
    set either, the view is the collection. *)
Theorem filtered_without_search (employees : list Employee) (filters : ViewFilters) :
  truthy (search filters) = false →
  map Employee.id (ITOnboardingApp.filtered toLowerCase employees filters)
  = map Employee.id employees
  ∧ (truthy (f_status (task_filter filters)) = false →
     truthy (f_owner (task_filter filters)) = false →
     ITOnboardingApp.filtered toLowerCase employees filters = employees).
Proof.
  intros Hs. unfold ITOnboardingApp.filtered.
  assert (∀ l : list Employee,
            filter (fun e => ITOnboardingApp.search_hit toLowerCase filters e = true) l = l)
    as Hkeep.
  { induction l as [|e l IH]; [done|]. rewrite filter_cons, IH.
    rewrite decide_True; [done|]. unfold ITOnboardingApp.search_hit. by rewrite Hs. }
  rewrite Hkeep. split.
  - induction employees as [|e l IH]; simpl; [done|]. by rewrite IH.
  - intros Hst Ho. induction employees as [|e l IH]; simpl; [done|].
    rewrite IH, filter_tasks_all by done. by destruct e.
Qed.
End FilteredView.

(* ------------------------------------------------------------------ *)
(** ** The progress shown per employee *)

Lemma fromEntries_snoc {V} (entries : list (string * V)) (k : string) (v : V) :
  fromEntries (entries ++ [(k, v)]) = <[k := v]> (fromEntries entries).
Proof. unfold fromEntries. by rewrite foldl_app. Qed.

Lemma fromEntries_lookup_None {V} (entries : list (string * V)) (k : string) :
  k ∉ entries.*1 → fromEntries entries !! k = None.
Proof.
  induction entries as [|[k' v'] l IH] using rev_ind; intros Hk; [done|].
  rewrite fromEntries_snoc. rewrite fmap_app in Hk. simpl in Hk.
  rewrite lookup_insert_ne.
  - apply IH. intros Hin. apply Hk, elem_of_app. by left.
  - intros ->. apply Hk, elem_of_app. right. by left.
Qed.

Lemma fromEntries_lookup_NoDup {V} (entries : list (string * V)) (k : string) (v : V) :
  NoDup entries.*1 → (k, v) ∈ entries → fromEntries entries !! k = Some v.
Proof.
  induction entries as [|[k' v'] l IH] using rev_ind; intros Hnd Hin.
  - by apply elem_of_nil in Hin.
  - rewrite fromEntries_snoc. rewrite fmap_app in Hnd. simpl in Hnd.
    apply NoDup_app in Hnd as (Hnd & Hdisj & _).
    apply elem_of_app in Hin as [Hin|Hin].
    + rewrite lookup_insert_ne; [by apply IH|].
      intros ->. apply (Hdisj k); [|by left].
      apply list_elem_of_fmap. by exists (k, v).
    + apply list_elem_of_singleton in Hin. injection Hin as -> ->.
      apply lookup_insert_eq.
Qed.

(** X8: in a collection whose employee ids are pairwise distinct, the
    progress the page shows for an employee is the progress of its tasks.
    For an id no employee has, the page shows 0, unless the id is the name
    of a member of Object.prototype: the lookup then gives the inherited
    member, and no number. *)
Theorem shown_progress_of_employee (employees : list Employee) :
  (NoDup (ids employees) →
   ∀ e, e ∈ employees →
        ITOnboardingApp.shown_progress employees (Employee.id e)
        = ITOnboardingApp.ShownNumber (calcProgress (Employee.tasks e)))
  ∧ (∀ id, id ∉ ids employees → id ∉ Object_prototype_names →
           ITOnboardingApp.shown_progress employees id
           = ITOnboardingApp.ShownNumber 0%float)
  ∧ (∀ id, id ∉ ids employees → id ∈ Object_prototype_names →
           ITOnboardingApp.shown_progress employees id
           = ITOnboardingApp.ShownInherited id).
Proof.
  unfold ITOnboardingApp.shown_progress, ITOnboardingApp.progressByEmp, ids.
  assert ((map (fun e => (Employee.id e, calcProgress (Employee.tasks e))) employees).*1
          = map Employee.id employees) as Hfst.
  { induction employees as [|e l IH]; [done|].
    change (Employee.id e
              :: (map (fun e => (Employee.id e, calcProgress (Employee.tasks e))) l).*1
            = Employee.id e :: map Employee.id l).
    by rewrite IH. }
  split; [|split].
  - intros Hnd e He.
    rewrite (fromEntries_lookup_NoDup _ _ (calcProgress (Employee.tasks e))); [done| |].
    + by rewrite Hfst.
    + apply list_elem_of_fmap. by exists e.
  - intros id Hid Hproto. rewrite fromEntries_lookup_None; [|by rewrite Hfst].
    by rewrite bool_decide_eq_false_2.
  - intros id Hid Hproto. rewrite fromEntries_lookup_None; [|by rewrite Hfst].
    by rewrite bool_decide_eq_true_2.
Qed.

Lemma shown_progress_of_employee_witness :
  ITOnboardingApp.shown_progress [jane; omar] (Employee.id omar)
  = ITOnboardingApp.ShownNumber (calcProgress (Employee.tasks omar)).
Proof.
  apply (proj1 (shown_progress_of_employee [jane; omar])).
  - apply NoDup_cons. split; [|apply NoDup_singleton].
    intros Hin. apply list_elem_of_singleton in Hin. discriminate Hin.
  - right. left.
Defined.

(* ------------------------------------------------------------------ *)
(** ** A new checklist and a new hire *)

Section NewHire.
Variable random36 : nat -> string.
Variable toISODate : Z -> string.

(** X9: whatever the clock and the random source, every task of a clone is
    not started, has no owner and no notes, and has a category of the
    template; the categories and titles are those of the template in their
    order; the due dates run from today to nine days later; and the progress
    of the clone is 0. *)
Theorem cloneTemplate_fresh_checklist (today : Z) (n : nat) :
  Forall (fun t => Task.status t = NotStarted ∧ Task.owner t = None ∧ Task.notes t = None
                   ∧ Task.category t ∈ DEFAULT_CATEGORIES.*1)
         (cloneTemplate random36 toISODate today n).1
  ∧ map (fun t => (Task.category t, Task.title t)) (cloneTemplate random36 toISODate today n).1
    = flat_map (fun cat => map (pair cat.1) cat.2) DEFAULT_CATEGORIES
  ∧ Forall (fun t => ∃ k, (0 ≤ k ≤ 9)%Z
                          ∧ Task.dueDate t = Some (toISODate (today + k * DAY_MS)%Z))
           (cloneTemplate random36 toISODate today n).1
  ∧ calcProgress (cloneTemplate random36 toISODate today n).1 = 0%float.
Proof.
  split; [|split; [|split]].
  - cbv [cloneTemplate rand_bind rand_mapi rand_ret uid DEFAULT_CATEGORIES fst snd concat app].
    repeat (constructor;
            [repeat split; rewrite list_elem_of_In; simpl; tauto|]).
    constructor.
  - reflexivity.
  - cbv [cloneTemplate rand_bind rand_mapi rand_ret uid DEFAULT_CATEGORIES fst snd concat app].
    repeat (constructor;
            [eexists; split; [|simpl; reflexivity]; lia|]).
    constructor.
  - reflexivity.
Qed.

(** X10: the command [addEmployee] of the page on the local adapter resolves
    and puts one new employee at the head of the collection, the others
    after it as they were.  The new employee has the twenty tasks of the
    template and progress 0; its id is none of the ids of its tasks,
    whatever the random source draws; a name the payload does not have is
    New Hire; and twenty-one random numbers are drawn. *)
Theorem page_addEmployee_local (now today : Z) (payload : NewHire) (s : LocalStorage)
    (n : nat) :
  let run := ITOnboardingApp.addEmployee random36 toISODate now today payload s n in
  let e := (ITOnboardingApp.new_employee random36 toISODate now today payload n).1 in
  run.1.1 = Fulfilled tt
  ∧ Local.load run.1.2 = e :: Local.load s
  ∧ run.2 = 21 + n
  ∧ length (Employee.tasks e) = 20
  ∧ calcProgress (Employee.tasks e) = 0%float
  ∧ (Employee.id e ∉ map Task.id (Employee.tasks e))
  ∧ (n_name payload = None → Employee.name e = "New Hire").
Proof.
  intros run e. subst run e.
  split; [reflexivity|]. split; [reflexivity|]. split; [reflexivity|].
  split; [reflexivity|]. split; [reflexivity|]. split.
  - cbv [ITOnboardingApp.new_employee cloneTemplate rand_bind rand_mapi rand_ret uid
         DEFAULT_CATEGORIES fst snd concat app Employee.id Employee.tasks map Task.id].
    rewrite list_elem_of_In. simpl. intuition discriminate.
  - intros Hn. cbv [ITOnboardingApp.new_employee rand_bind uid rand_ret fst]. simpl.
    by rewrite Hn.
Qed.
End NewHire.

Lemma page_addEmployee_local_witness :
  Employee.name
    (ITOnboardingApp.new_employee letter_random36 epoch_date 0 0
       {| n_name := None; n_email := None; n_role := None; n_manager := None;
          n_startDate := None |} 0).1
  = "New Hire".
Proof.
  apply (page_addEmployee_local letter_random36 epoch_date 0 0
           {| n_name := None; n_email := None; n_role := None; n_manager := None;
              n_startDate := None |} None 0).
  reflexivity.
Defined.

(* ------------------------------------------------------------------ *)
(** ** The CSV export *)

Lemma set_order_seen (seen xs : list string) :
  (∀ x, x ∈ xs → x ∈ seen) → set_order seen xs = [].
Proof.
  revert seen. induction xs as [|x xs IH]; intros seen Hin; simpl; [done|].
  rewrite bool_decide_eq_true_2 by (apply Hin; by left).
  apply IH. intros y Hy. apply Hin. by right.
Qed.

Lemma set_order_ext (seen seen' xs : list string) :
  (∀ x, x ∈ seen ↔ x ∈ seen') → set_order seen xs = set_order seen' xs.
Proof.
  revert seen seen'. induction xs as [|x xs IH]; intros seen seen' Heq; simpl; [done|].
  rewrite (bool_decide_ext _ _ (Heq x)). case_bool_decide.
  - by apply IH.
  - f_equal. apply IH. intros y. rewrite !elem_of_cons, Heq. done.
Qed.

Lemma set_order_app (seen l1 l2 : list string) :
  set_order seen (l1 ++ l2) = set_order seen l1 ++ set_order (l1 ++ seen) l2.
Proof.
  revert seen. induction l1 as [|x l1 IH]; intros seen; simpl; [done|].
  case_bool_decide as Hx.
  - rewrite IH. f_equal. apply set_order_ext. intros y.
    change ((x :: l1) ++ seen) with (x :: (l1 ++ seen)). rewrite elem_of_cons, !elem_of_app.
    split; [by right|]. intros [Hy|Hy]; [subst; by right|done].
  - rewrite IH. simpl. f_equal. f_equal. apply set_order_ext. intros y.
    rewrite elem_of_cons, !elem_of_app, elem_of_cons.
    split; [intros [?|[?|?]]; auto|intros [?|[?|?]]; auto].
Qed.

Lemma set_order_NoDup_id (seen xs : list string) :
  NoDup xs → (∀ x, x ∈ xs → x ∉ seen) → set_order seen xs = xs.
Proof.
  revert seen. induction xs as [|x xs IH]; intros seen Hnd Hdisj; simpl; [done|].
  inv Hnd. rewrite bool_decide_eq_false_2 by (apply Hdisj; by left).
  f_equal. apply IH; [done|]. intros y Hy [->|Hs]%elem_of_cons; [done|].
  by apply (Hdisj y); [right|].
Qed.

(** When every row has the same keys, none twice, and there is a row, the
    header of the CSV is these keys in their order. *)
Lemma csv_headers_uniform (ks : list string) (rows : list Row) :
  NoDup ks → rows ≠ [] → Forall (fun r => Object_keys r = ks) rows →
  csv_headers rows = ks.
Proof.
  intros Hnd Hne Hall. destruct rows as [|r rows]; [done|].
  inv Hall. unfold csv_headers. simpl. rewrite set_order_app.
  rewrite set_order_NoDup_id by (done || by intros ?? ?%elem_of_nil).
  rewrite set_order_seen; [by rewrite app_nil_r|].
  intros x Hx. apply elem_of_app. left.
  apply list_elem_of_In, in_flat_map in Hx as (r' & Hr' & Hx).
  rewrite Forall_forall in H2. rewrite <-(H2 r') by (by apply list_elem_of_In).
  by apply list_elem_of_In.
Qed.

Section CsvExport.
Variable toISODate : Z -> string.

Lemma export_rows_length (employees : list Employee) :
  length (ITOnboardingApp.export_rows employees) = task_count employees.
Proof.
  unfold ITOnboardingApp.export_rows, task_count.
  induction employees as [|e l IH]; simpl; [done|].
  by rewrite length_app, length_map, IH.
Qed.

Lemma export_rows_keys (employees : list Employee) :
  Forall (fun r => Object_keys r = export_columns) (ITOnboardingApp.export_rows employees).
Proof.
  unfold ITOnboardingApp.export_rows. apply Forall_forall. intros r Hr.
  apply list_elem_of_In, in_flat_map in Hr as (e & _ & Hr).
  apply in_map_iff in Hr as (t & <- & _). reflexivity.
Qed.

(** X11: the export has one row per task of the collection, every row with
    the same eleven keys; so when the collection has a task, the header of
    the file is these eleven columns. *)
Theorem exportCSV_rows_and_header (employees : list Employee) :
  length (ITOnboardingApp.export_rows employees) = task_count employees
  ∧ Forall (fun r => Object_keys r = export_columns) (ITOnboardingApp.export_rows employees)
  ∧ (task_count employees ≠ 0 →
     csv_headers (ITOnboardingApp.export_rows employees) = export_columns).
Proof.
  split; [apply export_rows_length|]. split; [apply export_rows_keys|].
  intros Hne. apply csv_headers_uniform.
  - unfold export_columns.
    repeat (apply NoDup_cons; split;
            [rewrite list_elem_of_In; simpl; intuition discriminate|]).
    apply NoDup_nil_2.
  - intros Hnil. apply Hne. by rewrite <-export_rows_length, Hnil.
  - apply export_rows_keys.
Qed.

Lemma exportCSV_rows_and_header_witness :
  csv_headers (ITOnboardingApp.export_rows [jane]) = export_columns.
Proof.
  apply (exportCSV_rows_and_header [jane]). discriminate.
Defined.

Lemma lf_free_replace_lf (s : string) : lf_free (replace_lf s) = true.
Proof.
  induction s as [|c s IH]; simpl; [done|].
  destruct (Ascii.eqb_spec c LF) as [->|Hne]; simpl; [done|].
  apply Ascii.eqb_neq in Hne. by rewrite Hne.
Qed.

Lemma lf_free_status_text (s : Status) : lf_free (status_text s) = true.
Proof. by destruct s. Qed.

Lemma lf_free_opt_value (o : option string) :
  lf_free (nullish o EmptyString) = true → lf_free (cell_text (opt_value o)) = true.
Proof. by destruct o. Qed.

Lemma export_row_lf_free (e : Employee) (t : Task) :
  export_lf_free e → t ∈ Employee.tasks e →
  row_lf_free (ITOnboardingApp.export_row e t).
Proof.
  intros (Hn & Hem & Hr & Hm & Hs & Hts) Ht.
  destruct (Hts t Ht) as (Hc & Hti & Ho & Hd).
  intros k v Hin. unfold ITOnboardingApp.export_row in Hin.
  rewrite list_elem_of_In in Hin. simpl in Hin.
  repeat (destruct Hin as [Hin|Hin];
          [injection Hin as <- <-; split; [reflexivity|];
           simpl; auto using lf_free_opt_value, lf_free_replace_lf, lf_free_status_text|]).
  destruct Hin.
Qed.

(** The lines of a CSV none of whose keys and cells holds a line feed. *)
Lemma toCSV_lines (rows : list Row) :
  Forall row_lf_free rows →
  split_lines (toCSV rows)
  = join (String COMMA EmptyString) (csv_headers rows)
      :: map (csv_row (csv_headers rows)) rows.
Proof.
  intros Hrows. unfold toCSV. apply split_lines_join. constructor.
  - apply lf_free_join_comma. apply Forall_forall. intros k Hk.
    apply csv_headers_elem_of in Hk as (r & Hr & Hk).
    unfold Object_keys in Hk. apply list_elem_of_fmap in Hk as ([k' v] & -> & Hkv).
    rewrite Forall_forall in Hrows. by apply (Hrows r Hr k' v).
  - apply Forall_map, Forall_forall. intros r Hr. unfold csv_row.
    apply lf_free_join_comma, Forall_map, Forall_forall. intros h _.
    rewrite lf_free_esc. apply get_prop_lf_free.
    rewrite Forall_forall in Hrows. by apply Hrows.
Qed.

(** X12: when no field other than the notes holds a line feed, the exported
    file has one line for the header and one line per task: line feeds in
    the notes are written as spaces. *)
Theorem exportCSV_one_line_per_task (now : Z) (employees : list Employee) :
  Forall export_lf_free employees →
  length (split_lines (dl_content (ITOnboardingApp.exportCSV toISODate now employees)))
  = S (task_count employees).
Proof.
  intros Hall. simpl. rewrite toCSV_lines.
  - simpl. by rewrite length_map, export_rows_length.
  - apply Forall_forall. intros r Hr. unfold ITOnboardingApp.export_rows in Hr.
    apply list_elem_of_In, in_flat_map in Hr as (e & He & Hr).
    apply in_map_iff in Hr as (t & <- & Ht).
    rewrite Forall_forall in Hall.
    apply export_row_lf_free; [apply Hall|]; by apply list_elem_of_In.
Qed.
End CsvExport.

Lemma exportCSV_one_line_per_task_witness :
  length (split_lines (dl_content
            (ITOnboardingApp.exportCSV epoch_date 0
               [sample_employee "emp_1" "Jane" [noted_task]]))) = 2.
Proof.
  apply (exportCSV_one_line_per_task epoch_date 0
           [sample_employee "emp_1" "Jane" [noted_task]]).
  constructor; [|constructor].
  repeat split; try reflexivity.
  all: apply list_elem_of_singleton in H; subst; reflexivity.
Defined.

(* ------------------------------------------------------------------ *)
(** ** Import of JSON *)

(** X14: in shared mode no import changes the employees shown or the local
    store, whatever the file holds; a file with an array of employees
    changes nothing at all but for the alert, its settings included; and in
    any mode a file that does not parse, or parses to null, changes nothing
    but for the alert. *)
Theorem import_refused (file : Parsed) (pg : Page) :
  (enabled (shared (pg_settings pg)) = true →
   pg_employees (ITOnboardingApp.importJSON file pg) = pg_employees pg
   ∧ pg_storage (ITOnboardingApp.importJSON file pg) = pg_storage pg
   ∧ (∀ data sets, file = ParsedValue (Some data) sets →
        pg_settings (ITOnboardingApp.importJSON file pg) = pg_settings pg
        ∧ length (pg_alerts (ITOnboardingApp.importJSON file pg))
          = S (length (pg_alerts pg))))
  ∧ (file = ParseThrows ∨ file = ParsedNull →
     ITOnboardingApp.importJSON file pg
     = ITOnboardingApp.with_alert "Invalid JSON file" pg).
Proof.
  split.
  - intros Hshared. split; [|split].
    + destruct file as [| |[data|] [sets|]]; simpl; rewrite ?Hshared; done.
    + destruct file as [| |[data|] [sets|]]; simpl; rewrite ?Hshared; done.
    + intros data sets ->. simpl. rewrite Hshared. simpl. split; [done|].
      rewrite length_app. simpl. lia.
  - by intros [->| ->].
Qed.

Lemma import_refused_witness :
  pg_storage
    (ITOnboardingApp.importJSON (ParsedValue (Some [jane]) None)
       {| pg_employees := []; pg_settings := shared_settings;
          pg_storage := None; pg_alerts := [] |})
  = None.
Proof.
  apply (import_refused (ParsedValue (Some [jane]) None)
           {| pg_employees := []; pg_settings := shared_settings;
              pg_storage := None; pg_alerts := [] |}).
  reflexivity.
Defined.

(* ------------------------------------------------------------------ *)
(** ** The roster of owners *)

Section Roster.
Variable trim : string -> string.

(** X15: [addOwner] with an input that trims to nothing changes nothing.
    Otherwise the roster it leaves has no owner twice, and holds exactly the
    owners there were and the trimmed input; when the roster had no owner
    twice and held the trimmed input already, it is left as it was. *)
Theorem addOwner_roster (ownerInput : string) (s : Settings) :
  (trim ownerInput = EmptyString → SettingsPanel.addOwner trim ownerInput s = s)
  ∧ (trim ownerInput ≠ EmptyString →
     NoDup (owners (SettingsPanel.addOwner trim ownerInput s))
     ∧ (∀ o, o ∈ owners (SettingsPanel.addOwner trim ownerInput s)
             ↔ o ∈ owners s ∨ o = trim ownerInput)
     ∧ (NoDup (owners s) → trim ownerInput ∈ owners s →
        SettingsPanel.addOwner trim ownerInput s = s)).
Proof.
  unfold SettingsPanel.addOwner. split.
  - intros ->. done.
  - intros Hne. apply truthy_Some in Hne. rewrite Hne. simpl.
    split; [apply set_order_NoDup|]. split.
    + intros o. rewrite set_order_elem_of, elem_of_app, list_elem_of_singleton.
      split; [tauto|]. intros Ho. split; [done|]. by intros ?%elem_of_nil.
    + intros Hnd Hin. rewrite set_order_app.
      rewrite set_order_NoDup_id by (done || by intros ?? ?%elem_of_nil).
      rewrite set_order_seen.
      * rewrite app_nil_r. by destruct s.
      * intros x Hx%list_elem_of_singleton. subst. apply elem_of_app. by left.
Qed.
End Roster.

Lemma addOwner_roster_witness :
  SettingsPanel.addOwner no_trim "Alice" default_settings = default_settings.
Proof.
  apply (addOwner_roster no_trim "Alice" default_settings).
  - discriminate.
  - simpl. repeat (apply NoDup_cons; split;
                   [rewrite list_elem_of_In; simpl; intuition discriminate|]).
    apply NoDup_nil_2.
  - simpl. right. left.
Defined.

(* ------------------------------------------------------------------ *)
(** ** More on the local adapter *)

Lemma filter_other_ids (k : string) (data : list Employee) :
  k ∉ ids data → filter (fun e => Employee.id e ≠ k) data = data.
Proof.
  unfold ids. induction data as [|e l IH]; intros Hk; [done|].
  simpl in Hk. rewrite filter_cons, decide_True.
  - rewrite IH; [done|]. intros Hin. apply Hk. by right.
  - intros Heq. apply Hk. rewrite <-Heq. by left.
Qed.

(** X16: adding an employee whose id the local store does not hold, and then
    removing that id, leaves the collection as it was. *)
Theorem local_add_then_remove (e : Employee) (s : LocalStorage) :
  Employee.id e ∉ ids (Local.load s) →
  Local.load (Local.removeEmployee (Employee.id e) (Local.addEmployee e s)) = Local.load s.
Proof.
  intros Hfresh. unfold Local.removeEmployee, Local.addEmployee. simpl.
  rewrite filter_cons, decide_False by (by intros Hne; apply Hne).
  by apply filter_other_ids.
Qed.

Lemma local_add_then_remove_witness :
  Local.load (Local.removeEmployee (Employee.id omar) (Local.addEmployee omar one_hire))
  = Local.load one_hire.
Proof.
  apply local_add_then_remove. simpl.
  intros Hin. apply list_elem_of_singleton in Hin. discriminate Hin.
Defined.

Lemma merge_patch_twice (t : Task) (p : Patch) :
  merge_patch (merge_patch t p) p = merge_patch t p.
Proof.
  unfold merge_patch. destruct p as [i c ti st o d n]. simpl.
  by destruct i, c, ti, st, o, d, n.
Qed.

Lemma patch_tasks_twice (taskId : string) (p : Patch) (ts : list Task) :
  map (fun t => if bool_decide (Task.id t = taskId) then merge_patch t p else t)
      (map (fun t => if bool_decide (Task.id t = taskId) then merge_patch t p else t) ts)
  = map (fun t => if bool_decide (Task.id t = taskId) then merge_patch t p else t) ts.
Proof.
  induction ts as [|t ts IH]; simpl; [done|]. rewrite IH. f_equal.
  destruct (decide (Task.id t = taskId)) as [Ht|Ht].
  - rewrite (bool_decide_eq_true_2 _ Ht).
    destruct (bool_decide (Task.id (merge_patch t p) = taskId));
      [apply merge_patch_twice|done].
  - rewrite (bool_decide_eq_false_2 _ Ht). by rewrite (bool_decide_eq_false_2 _ Ht).
Qed.

(** X17: the local [updateTask] called twice with the same arguments leaves
    what one call leaves, also when the patch renames the task. *)
Theorem local_updateTask_idempotent (empId taskId : string) (patch : Patch)
    (s : LocalStorage) :
  Local.updateTask empId taskId patch (Local.updateTask empId taskId patch s)
  = Local.updateTask empId taskId patch s.
Proof.
  unfold Local.updateTask. simpl. do 2 f_equal.
  induction (Local.load s) as [|e data IH]; simpl; [done|]. rewrite IH. f_equal.
  destruct (decide (Employee.id e ≠ empId)) as [He|He].
  - rewrite (bool_decide_eq_true_2 _ He). by rewrite (bool_decide_eq_true_2 _ He).
  - rewrite (bool_decide_eq_false_2 _ He). simpl.
    rewrite (bool_decide_eq_false_2 _ He). by rewrite patch_tasks_twice.
Qed.

(** X18: on the local store [updateTask] and [removeEmployee] can be called
    in either order, and so can two [removeEmployee]. *)
Theorem local_calls_commute (empId taskId k k' : string) (patch : Patch) (s : LocalStorage) :
  Local.removeEmployee k (Local.updateTask empId taskId patch s)
  = Local.updateTask empId taskId patch (Local.removeEmployee k s)
  ∧ Local.removeEmployee k (Local.removeEmployee k' s)
    = Local.removeEmployee k' (Local.removeEmployee k s).
Proof.
  unfold Local.removeEmployee, Local.updateTask. simpl. split; do 2 f_equal.
  - induction (Local.load s) as [|e data IH]; simpl; [done|].
    rewrite !filter_cons.
    destruct (decide (Employee.id e ≠ empId)) as [He|He].
    + rewrite (bool_decide_eq_true_2 _ He).
      destruct (decide (Employee.id e ≠ k)); simpl;
        rewrite ?(bool_decide_eq_true_2 _ He), IH; done.
    + rewrite (bool_decide_eq_false_2 _ He). simpl.
      destruct (decide (Employee.id e ≠ k)); simpl;
        rewrite ?(bool_decide_eq_false_2 _ He), IH; done.
  - induction (Local.load s) as [|e data IH]; [done|].
    rewrite !filter_cons.
    destruct (decide (Employee.id e ≠ k)), (decide (Employee.id e ≠ k'));
      rewrite ?filter_cons, ?decide_True, ?decide_False by done; by rewrite IH.
Qed.

(** X19: when another window writes the item of the adapter, every handler
    this window still has is run once with the collection written, so a
    callback is called once per live subscription of it; an event for
    another key calls nobody and leaves the item; a text that does not
    parse calls nobody. *)
Theorem storage_event_delivery (w : LocalSubscribe.World) (cb : nat)
    (data : list Employee) (key : string) :
  LocalSubscribe.calls_of cb
    (LocalSubscribe.storage_event (Some STORAGE_KEY) (Some (Json data)) w)
  = LocalSubscribe.calls_of cb w
    ++ replicate (length (filter (fun hc => hc.2 = cb) (LocalSubscribe.handlers w))) data
  ∧ LocalSubscribe.calls_of cb
      (LocalSubscribe.storage_event (Some STORAGE_KEY) (Some Unparsable) w)
    = LocalSubscribe.calls_of cb w
  ∧ (key ≠ STORAGE_KEY →
     LocalSubscribe.calls_of cb (LocalSubscribe.storage_event (Some key) (Some (Json data)) w)
     = LocalSubscribe.calls_of cb w
     ∧ LocalSubscribe.storage
         (LocalSubscribe.storage_event (Some key) (Some (Json data)) w)
       = LocalSubscribe.storage w).
Proof.
  unfold LocalSubscribe.calls_of, LocalSubscribe.storage_event. simpl.
  split; [|split].
  - rewrite filter_app, fmap_app. f_equal.
    induction (LocalSubscribe.handlers w) as [|[h c] hs IH]; [done|].
    cbn [flat_map].
    change (LocalSubscribe.handler_calls (Some STORAGE_KEY) (Some (Json data)) (h, c).2)
      with [(c, data)].
    rewrite filter_app, fmap_app, IH.
    destruct (decide (c = cb)) as [Hc|Hc].
    + rewrite !filter_cons_True by done. by rewrite filter_nil.
    + rewrite !filter_cons_False by done. by rewrite filter_nil.
  - rewrite filter_app, fmap_app.
    assert (flat_map (fun hc : nat * nat =>
                        LocalSubscribe.handler_calls (Some STORAGE_KEY) (Some Unparsable) hc.2)
                     (LocalSubscribe.handlers w) = []) as ->.
    { induction (LocalSubscribe.handlers w) as [|hc hs IH]; [done|]. simpl. exact IH. }
    by rewrite app_nil_r.
  - intros Hne. rewrite bool_decide_eq_false_2 by done. split; [|done].
    rewrite filter_app, fmap_app.
    assert (flat_map (fun hc : nat * nat =>
                        LocalSubscribe.handler_calls (Some key) (Some (Json data)) hc.2)
                     (LocalSubscribe.handlers w) = []) as ->.
    { induction (LocalSubscribe.handlers w) as [|hc hs IH]; [done|]. simpl.
      unfold LocalSubscribe.handler_calls at 1.
      rewrite bool_decide_eq_false_2 by (by intros [= ?]). exact IH. }
    by rewrite app_nil_r.
Qed.

Lemma storage_event_delivery_witness :
  LocalSubscribe.storage
    (LocalSubscribe.storage_event (Some SETTINGS_KEY) (Some (Json [jane]))
       (LocalSubscribe.initial one_hire))
  = one_hire.
Proof.
  apply (storage_event_delivery (LocalSubscribe.initial one_hire) 0 [jane] SETTINGS_KEY).
  discriminate.
Defined.

(* ------------------------------------------------------------------ *)
(** ** More on the Firestore adapter *)

(** X20: on one adapter only the first call of a method can succeed: after
    any call [imported] is set, and every call made then, whichever method
    it is, rejects with the type error and leaves the adapter and the
    database as they were. *)
Theorem remote_only_first_call (a : FirestoreAdapter) (op op' : Op) (e : Employee)
    (empId taskId : string) (patch : Patch) :
  imported (apply_op a op) = true
  ∧ apply_op (apply_op a op) op' = apply_op a op
  ∧ (load (apply_op a op)).1 = Rejected Remote.TYPE_ERROR
  ∧ (addEmployee e (apply_op a op)).1 = Rejected Remote.TYPE_ERROR
  ∧ (updateTask empId taskId patch (apply_op a op)).1 = Rejected Remote.TYPE_ERROR
  ∧ (removeEmployee empId (apply_op a op)).1 = Rejected Remote.TYPE_ERROR.
Proof.
  assert (imported (apply_op a op) = true) as Hi.
  { destruct op; apply method_imported. }
  split; [done|]. split.
  - destruct op'; simpl;
      unfold Remote.addEmployee, Remote.updateTask, Remote.removeEmployee;
      by rewrite method_again.
  - simpl. unfold Remote.load, Remote.addEmployee, Remote.updateTask, Remote.removeEmployee.
    by rewrite !method_again.
Qed.

Lemma load_docs_length (db : Firestore) :
  length (Remote.load_docs db) = size (employees db).
Proof.
  unfold Remote.load_docs, Remote.employee_docs.
  by rewrite length_map, merge_sort_Permutation, length_map_to_list.
Qed.

Lemma load_docs_id_elem (db : Firestore) (k : string) :
  k ∈ ids (Remote.load_docs db) ↔ is_Some (employees db !! k).
Proof.
  unfold ids. rewrite load_docs_ids. rewrite list_elem_of_fmap. split.
  - intros ([k' d] & -> & Hin). apply elem_of_map_to_list in Hin. by eexists.
  - intros [d Hd]. exists (k, d). split; [done|]. by apply elem_of_map_to_list.
Qed.

(** X21: the Firestore [addEmployee] writes the employee document under the
    id: afterwards the ids loaded are the ids there were and the new one,
    each once; an id that was there is overwritten and the number of
    employees stays, where the local adapter would hold the id twice. *)
Theorem remote_addEmployee_upsert (e : Employee) (db : Firestore) :
  (∀ k, k ∈ ids (Remote.load_docs (Remote.set_employee e db))
        ↔ k = Employee.id e ∨ k ∈ ids (Remote.load_docs db))
  ∧ NoDup (ids (Remote.load_docs (Remote.set_employee e db)))
  ∧ (Employee.id e ∈ ids (Remote.load_docs db) →
     length (Remote.load_docs (Remote.set_employee e db)) = length (Remote.load_docs db))
  ∧ (Employee.id e ∉ ids (Remote.load_docs db) →
     length (Remote.load_docs (Remote.set_employee e db))
     = S (length (Remote.load_docs db))).
Proof.
  split; [|split; [|split]].
  - intros k. rewrite !load_docs_id_elem. simpl.
    destruct (decide (k = Employee.id e)) as [->|Hne].
    + rewrite lookup_insert_eq. split; [by left|by eexists].
    + rewrite lookup_insert_ne by done. split; [by right|]. by intros [?|?].
  - apply load_docs_NoDup.
  - intros [d Hd]%load_docs_id_elem. rewrite !load_docs_length. simpl.
    rewrite map_size_insert_Some; [done|by eexists].
  - intros Hk. rewrite !load_docs_length. simpl.
    rewrite map_size_insert_None; [done|].
    destruct (employees db !! Employee.id e) eqn:Hd; [|done].
    exfalso. apply Hk, load_docs_id_elem. by eexists.
Qed.

Lemma remote_addEmployee_upsert_witness :
  length (Remote.load_docs (Remote.set_employee jane one_doc_db))
  = length (Remote.load_docs one_doc_db).
Proof.
  apply (remote_addEmployee_upsert jane one_doc_db).
  apply load_docs_id_elem. by eexists.
Defined.

Lemma load_docs_ext (db1 db2 : Firestore) :
  employees db1 = employees db2 →
  (∀ i, is_Some (employees db1 !! i) → Remote.task_docs db1 i = Remote.task_docs db2 i) →
  Remote.load_docs db1 = Remote.load_docs db2.
Proof.
  intros Hemp Htasks. unfold Remote.load_docs, Remote.employee_docs. rewrite <-Hemp.
  apply map_ext_in. intros [i d] Hin. simpl. f_equal. apply Htasks.
  apply list_elem_of_In in Hin. rewrite merge_sort_Permutation in Hin.
  apply elem_of_map_to_list in Hin. by eexists.
Qed.

(** X22: in the database, adding an employee and then removing its id leaves
    what removing the id alone leaves: the collection loaded is the one
    before without that id, and no task document of the id is left. *)
Theorem remote_add_then_remove (e : Employee) (db : Firestore) :
  Remote.load_docs (Remote.delete_employee (Employee.id e) (Remote.set_employee e db))
  = filter (fun x => Employee.id x ≠ Employee.id e) (Remote.load_docs db)
  ∧ Remote.task_docs (Remote.delete_employee (Employee.id e) (Remote.set_employee e db))
      (Employee.id e) = [].
Proof.
  split; [|apply task_docs_deleted].
  rewrite <-load_docs_delete_employee. apply load_docs_ext.
  - simpl. apply delete_insert_eq.
  - intros i [d Hd]. simpl in Hd.
    apply lookup_delete_Some in Hd as [Hne _].
    rewrite !task_docs_kept by done.
    unfold Remote.task_docs. simpl. by rewrite lookup_insert_ne.
Qed.

Lemma set_task_docs_lookup_other (ts : list Task) (col : gmap string Task) (k : string) :
  k ∉ map Task.id ts → Remote.set_task_docs ts col !! k = col !! k.
Proof.
  unfold Remote.set_task_docs. revert col.
  induction ts as [|t ts IH]; intros col Hk; [done|]. simpl in *.
  rewrite IH by (intros Hin; apply Hk; by right).
  apply lookup_insert_ne. intros Heq. apply Hk. rewrite <-Heq. by left.
Qed.

Lemma set_task_docs_lookup (ts : list Task) (col : gmap string Task) (t : Task) :
  NoDup (map Task.id ts) → t ∈ ts → Remote.set_task_docs ts col !! Task.id t = Some t.
Proof.
  unfold Remote.set_task_docs. revert col.
  induction ts as [|t' ts IH]; intros col Hnd Hin; [by apply elem_of_nil in Hin|].
  simpl in *. inv Hnd. apply elem_of_cons in Hin as [->|Hin].
  - fold (Remote.set_task_docs ts (<[Task.id t' := t']> col)).
    rewrite set_task_docs_lookup_other by done. apply lookup_insert_eq.
  - by apply IH.
Qed.

Lemma set_task_docs_list (ts : list Task) :
  NoDup (map Task.id ts) →
  map_to_list (Remote.set_task_docs ts ∅) ≡ₚ map (fun t => (Task.id t, t)) ts.
Proof.
  intros Hnd. apply NoDup_Permutation.
  - apply NoDup_map_to_list.
  - apply (NoDup_fmap_1 fst). rewrite <-list_fmap_compose.
    assert (fst ∘ (fun t => (Task.id t, t)) <$> ts = map Task.id ts) as -> by done.
    done.
  - intros [k t]. rewrite elem_of_map_to_list, list_elem_of_fmap. split.
    + intros Hl. destruct (decide (k ∈ map Task.id ts)) as [Hin|Hnin].
      * apply list_elem_of_fmap in Hin as (t' & -> & Ht').
        rewrite set_task_docs_lookup in Hl by done. injection Hl as ->. by exists t.
      * rewrite set_task_docs_lookup_other in Hl by done. by rewrite lookup_empty in Hl.
    + intros (t' & [= -> ->] & Ht'). by apply set_task_docs_lookup.
Qed.

(** X23: an employee added to a database that holds no task document under
    its id (none was ever written there, or [removeEmployee] has deleted
    them), its task ids pairwise distinct, is loaded back under its id with
    its name, with an empty text for every optional field it lacks, and with
    its tasks, which come back ordered by id. *)
Theorem remote_add_then_load (e : Employee) (db : Firestore) :
  NoDup (map Task.id (Employee.tasks e)) →
  default ∅ (tasks db !! Employee.id e) = ∅ →
  ∃ e', e' ∈ Remote.load_docs (Remote.set_employee e db)
        ∧ Employee.id e' = Employee.id e
        ∧ Employee.name e' = Employee.name e
        ∧ Employee.email e' = Some (nullish (Employee.email e) EmptyString)
        ∧ Employee.role e' = Some (nullish (Employee.role e) EmptyString)
        ∧ Employee.manager e' = Some (nullish (Employee.manager e) EmptyString)
        ∧ Employee.startDate e' = Some (nullish (Employee.startDate e) EmptyString)
        ∧ Employee.tasks e' ≡ₚ Employee.tasks e
        ∧ StronglySorted String.le (map Task.id (Employee.tasks e')).
Proof.
  intros Hnd Hnone.
  set (db' := Remote.set_employee e db).
  assert (is_Some (employees db' !! Employee.id e)) as [d Hd].
  { simpl. rewrite lookup_insert_eq. by eexists. }
  pose proof Hd as Hd'. simpl in Hd'. rewrite lookup_insert_eq in Hd'.
  injection Hd' as Hdoc.
  exists (Remote.employee_of_doc (Employee.id e) d (Remote.task_docs db' (Employee.id e))).
  assert (Remote.task_docs db' (Employee.id e)
          = (merge_sort Remote.key_le
               (map_to_list (Remote.set_task_docs (Employee.tasks e) ∅))).*2) as Htd.
  { unfold Remote.task_docs. simpl. rewrite lookup_insert_eq. simpl. by rewrite Hnone. }
  split.
  { unfold Remote.load_docs. apply list_elem_of_fmap.
    exists (Employee.id e, d). split; [done|]. unfold Remote.employee_docs.
    rewrite merge_sort_Permutation. by apply elem_of_map_to_list. }
  subst d. simpl. repeat split.
  - rewrite Htd, merge_sort_Permutation, set_task_docs_list by done.
    rewrite <-list_fmap_compose. by rewrite list_fmap_id.
  - rewrite Htd.
    pose proof (StronglySorted_merge_sort Remote.key_le
                  (map_to_list (Remote.set_task_docs (Employee.tasks e) ∅))) as Hs.
    assert (∀ l : list (string * Task),
              Forall (fun kt => kt.1 = Task.id kt.2) l →
              StronglySorted Remote.key_le l →
              StronglySorted String.le (map Task.id l.*2)) as Hmap.
    { intros l. induction l as [|x l IH]; intros Hkeys Hsorted; [constructor|].
      apply Forall_cons in Hkeys as [Hx Hkeys].
      apply StronglySorted_inv in Hsorted as [Hsorted Hall].
      simpl. constructor; [by apply IH|].
      rewrite Forall_forall in Hall, Hkeys. apply Forall_forall. intros k Hk.
      apply list_elem_of_fmap in Hk as (t & -> & Ht).
      apply list_elem_of_fmap in Ht as (kt & -> & Hkt).
      rewrite <-Hx, <-(Hkeys kt Hkt). by apply Hall. }
    apply Hmap; [|done]. apply Forall_forall. intros [k t] Hin.
    rewrite merge_sort_Permutation, set_task_docs_list in Hin by done.
    apply list_elem_of_fmap in Hin as (t' & [= -> ->] & _). done.
Qed.

Lemma remote_add_then_load_witness :
  ∃ e', e' ∈ Remote.load_docs
               (Remote.set_employee omar
                  (Remote.delete_employee "emp_2" (Remote.set_employee omar one_doc_db)))
        ∧ Employee.id e' = "emp_2" ∧ Employee.tasks e' ≡ₚ Employee.tasks omar.
Proof.
  destruct (remote_add_then_load omar
              (Remote.delete_employee "emp_2" (Remote.set_employee omar one_doc_db)))
    as (e' & Hin & Hid & _ & _ & _ & _ & _ & Hts & _).
  - simpl. apply NoDup_singleton.
  - vm_compute. reflexivity.
  - exists e'. by repeat split.
Defined.



(* ------------------------------------------------------------------ *)
(** ** The first snapshots of a Firestore subscription *)

Lemma task_snapshot_attached (l : nat) (empId : string) (w : RemoteSubscribe.World) :
  (l, TaskListener empId) ∈ attached w →
  task_snapshot l empId w
  = {| RemoteSubscribe.adapter := RemoteSubscribe.adapter w;
       attached := attached w; next_listener := next_listener w;
       ensure_pending := ensure_pending w; unsubEmp := unsubEmp w;
       taskUnsubs := taskUnsubs w;
       base := map (fun e => if bool_decide (Employee.id e = empId)
                             then Employee.mk (Employee.id e) (Employee.name e)
                                    (Employee.startDate e) (Employee.role e)
                                    (Employee.manager e) (Employee.email e)
                                    (Remote.task_docs (RemoteSubscribe.db w) empId)
                             else e) (base w);
       RemoteSubscribe.calls :=
         RemoteSubscribe.calls w
         ++ [map (fun e => if bool_decide (Employee.id e = empId)
                           then Employee.mk (Employee.id e) (Employee.name e)
                                  (Employee.startDate e) (Employee.role e)
                                  (Employee.manager e) (Employee.email e)
                                  (Remote.task_docs (RemoteSubscribe.db w) empId)
                           else e) (base w)] |}.
Proof. intros Hin. unfold task_snapshot. by rewrite bool_decide_eq_true_2. Qed.

Lemma with_tasks_step (d : Firestore) (done : list string) (k : string)
    (emps emps0 : list Employee) :
  emps = with_tasks d done emps0 →
  map (fun e => if bool_decide (Employee.id e = k)
                then Employee.mk (Employee.id e) (Employee.name e) (Employee.startDate e)
                       (Employee.role e) (Employee.manager e) (Employee.email e)
                       (Remote.task_docs d k)
                else e) emps
  = with_tasks d (done ++ [k]) emps0.
Proof.
  intros ->. unfold with_tasks. rewrite <-list_fmap_compose.
  apply list_fmap_ext. intros _ e _. simpl.
  destruct (decide (Employee.id e ∈ done)) as [Hd|Hd].
  - rewrite (bool_decide_eq_true_2 _ Hd). simpl.
    assert (Employee.id e ∈ done ++ [k]) as Hd' by (apply elem_of_app; by left).
    rewrite (bool_decide_eq_true_2 _ Hd').
    destruct (decide (Employee.id e = k)) as [Hk|Hk].
    + rewrite (bool_decide_eq_true_2 _ Hk). by rewrite Hk.
    + by rewrite (bool_decide_eq_false_2 _ Hk).
  - rewrite (bool_decide_eq_false_2 _ Hd).
    destruct (decide (Employee.id e = k)) as [Hk|Hk].
    + rewrite (bool_decide_eq_true_2 _ Hk).
      assert (Employee.id e ∈ done ++ [k]) as Hd'
        by (apply elem_of_app; right; rewrite Hk; by left).
      rewrite (bool_decide_eq_true_2 _ Hd'). by rewrite Hk.
    + rewrite (bool_decide_eq_false_2 _ Hk).
      assert (Employee.id e ∉ done ++ [k]) as Hd'.
      { intros [?|Hin%list_elem_of_singleton]%elem_of_app; done. }
      by rewrite (bool_decide_eq_false_2 _ Hd').
Qed.

Lemma task_snapshots_run (d : Firestore) (emps0 : list Employee)
    (subs : list (string * nat)) (done : list string) (w : RemoteSubscribe.World) :
  RemoteSubscribe.db w = d →
  base w = with_tasks d done emps0 →
  (∀ s, s ∈ subs → (s.2, TaskListener s.1) ∈ attached w) →
  let w' := RemoteSubscribe.run w (map (fun s => TaskSnapshot s.2 s.1) subs) in
  base w' = with_tasks d (done ++ subs.*1) emps0
  ∧ length (RemoteSubscribe.calls w') = length (RemoteSubscribe.calls w) + length subs
  ∧ (subs ≠ [] → last (RemoteSubscribe.calls w') = Some (base w')).
Proof.
  revert done w. induction subs as [|[k l] subs IH]; intros done w Hdb Hbase Hatt.
  - simpl. rewrite app_nil_r. split; [done|]. split; [lia|done].
  - change (RemoteSubscribe.run w (map (fun s => TaskSnapshot s.2 s.1) ((k, l) :: subs)))
      with (RemoteSubscribe.run (task_snapshot l k w)
              (map (fun s => TaskSnapshot s.2 s.1) subs)).
    assert ((l, TaskListener k) ∈ attached w) as Hkl by (apply (Hatt (k, l)); by left).
    rewrite (task_snapshot_attached l k w Hkl). rewrite Hdb.
    rewrite (with_tasks_step d done k (base w) emps0 Hbase).
    set (w1 := {| RemoteSubscribe.adapter := _ |}).
    destruct (IH (done ++ [k]) w1) as (Hb & Hlen & Hlast); [done..| |].
    { intros s Hs. apply (Hatt s). by right. }
    simpl in Hb, Hlen, Hlast |- *.
    split; [by rewrite Hb, <-app_assoc|]. split.
    + rewrite Hlen. subst w1. simpl. rewrite length_app. simpl. lia.
    + intros _. destruct subs as [|s subs]; [|by apply Hlast].
      simpl. subst w1. simpl. apply last_snoc.
Qed.

Lemma attach_tasks_ids (l0 : nat) (emps : list Employee) :
  (attach_tasks l0 emps).*1 = map Employee.id emps.
Proof. revert l0. induction emps as [|e l IH]; intros l0; simpl; [done|]. by rewrite IH. Qed.

Lemma with_tasks_all (d : Firestore) :
  with_tasks d (map Employee.id (bare_employees d)) (bare_employees d) = Remote.load_docs d.
Proof.
  unfold with_tasks, bare_employees, Remote.load_docs.
  rewrite <-!list_fmap_compose.
  apply list_fmap_ext. intros i doc Hdoc. simpl.
  rewrite bool_decide_eq_true_2; [done|].
  apply list_elem_of_fmap. exists doc. split; [done|]. by eapply list_elem_of_lookup_2.
Qed.

(** X25: in a database none of whose employee documents has an id that
    starts with a digit, after a subscription on a fresh adapter, once
    [ensure] has resolved, the parent listener has received the collection
    and every task listener its tasks, the callback has been called once
    more than there are employees, and its last call carries what [load]
    reads from the database. *)
Theorem remote_subscription_full_snapshot (d : Firestore) :
  query_ordered d →
  let w := RemoteSubscribe.run (RemoteSubscribe.subscribed (createFirestoreAdapter d))
             (first_snapshots d) in
  base w = Remote.load_docs d
  ∧ length (RemoteSubscribe.calls w) = S (length (Remote.load_docs d))
  ∧ last (RemoteSubscribe.calls w) = Some (Remote.load_docs d).
Proof.
  intros _.
  intros w. subst w. unfold first_snapshots.
  change (RemoteSubscribe.run ?w0 (EnsureResolved :: ParentSnapshot 0 :: ?evs))
    with (RemoteSubscribe.run (parent_snapshot 0 (ensure_resolved w0)) evs).
  set (w2 := parent_snapshot 0 _).
  assert (w2 = {| RemoteSubscribe.adapter := {| imported := true; database := d |};
                  attached := (0, ParentListener)
                              :: map (fun s => (s.2, TaskListener s.1))
                                     (attach_tasks 1 (bare_employees d));
                  next_listener := 1 + length (bare_employees d);
                  ensure_pending := None; unsubEmp := Some 0;
                  taskUnsubs := attach_tasks 1 (bare_employees d);
                  base := bare_employees d;
                  RemoteSubscribe.calls := [bare_employees d] |}) as Hw2 by reflexivity.
  clearbody w2. subst w2.
  destruct (task_snapshots_run d (bare_employees d) (attach_tasks 1 (bare_employees d)) []
              {| RemoteSubscribe.adapter := {| imported := true; database := d |};
                 attached := (0, ParentListener)
                             :: map (fun s => (s.2, TaskListener s.1))
                                    (attach_tasks 1 (bare_employees d));
                 next_listener := 1 + length (bare_employees d);
                 ensure_pending := None; unsubEmp := Some 0;
                 taskUnsubs := attach_tasks 1 (bare_employees d);
                 base := bare_employees d;
                 RemoteSubscribe.calls := [bare_employees d] |})
    as (Hb & Hlen & Hlast).
  - done.
  - simpl. generalize (bare_employees d). intros l. unfold with_tasks.
    induction l as [|e l IH]; [done|]. simpl. f_equal. apply IH.
  - intros s Hs. simpl. right. apply list_elem_of_fmap. by exists s.
  - cbv zeta in Hb, Hlen, Hlast.
    cbn [RemoteSubscribe.calls RemoteSubscribe.base length app] in Hb, Hlen, Hlast.
    rewrite attach_tasks_ids, with_tasks_all in Hb.
    split; [done|]. split.
    + rewrite Hlen. simpl. f_equal.
      assert (length (attach_tasks 1 (bare_employees d)) = length (bare_employees d)) as ->.
      { by rewrite <-(length_fmap fst), attach_tasks_ids, length_map. }
      unfold bare_employees, Remote.load_docs. by rewrite !length_map.
    + destruct (attach_tasks 1 (bare_employees d)) as [|s subs] eqn:Ha.
      * simpl. f_equal. rewrite <-Hb. done.
      * rewrite Hlast by done. by rewrite Hb.
Qed.

Lemma local_dispose_after_delivery_witness :
  LocalSubscribe.calls_of 7
    (LocalSubscribe.run (LocalSubscribe.initial one_hire)
       [LocalSubscribe.Subscribe 7; LocalSubscribe.Microtask; LocalSubscribe.Dispose 0;
        LocalSubscribe.StorageEvent (Some STORAGE_KEY) (Some (Json [jane; omar]))])
  = [Local.load one_hire].
Proof.
  apply (local_dispose_after_delivery one_hire 7
           [LocalSubscribe.StorageEvent (Some STORAGE_KEY) (Some (Json [jane; omar]))]).
  constructor; [exact I|constructor].
Defined.

Lemma filtered_sound_witness :
  ITOnboardingApp.search_hit keep_case open_tasks_filter jane = true.
Proof.
  apply (proj1 (filtered_sound keep_case [jane; omar] open_tasks_filter jane
                  ltac:(apply list_elem_of_In; vm_compute; left; reflexivity))).
Defined.

Lemma filtered_without_search_witness :
  ITOnboardingApp.filtered keep_case [jane; omar] no_filter = [jane; omar].
Proof.
  apply (proj2 (filtered_without_search keep_case [jane; omar] no_filter eq_refl));
    reflexivity.
Defined.

Lemma remote_subscription_full_snapshot_witness :
  last (RemoteSubscribe.calls
          (RemoteSubscribe.run (RemoteSubscribe.subscribed (createFirestoreAdapter one_doc_db))
             (first_snapshots one_doc_db)))
  = Some (Remote.load_docs one_doc_db).
Proof.
  apply (remote_subscription_full_snapshot one_doc_db).
  intros id [doc Hdoc]. simpl in Hdoc.
  apply lookup_singleton_Some in Hdoc as [<- _]. reflexivity.
Defined.
